(** * flannel remote client (remote/client.go): embedding and properties

    The development follows the three layers of the file:
    - [Path]: Go's [path.Clean] and [path.Join], which [mkurl] calls;
    - [Client]: [mkurl], [httpError], [httpGet], [httpPutPost] and the four
      operations of [RemoteManager], as functions in a small monad that
      threads the log of the effects on the network and on the response body;
    - [Executor]: [httpDo], its goroutine, its channel and the context, as
      a labelled transition system whose runs are the interleavings. *)

From Stdlib Require Import String Ascii List Bool Arith ZArith Lia.
Import ListNotations.

Open Scope list_scope.
Open Scope string_scope.

(** ** Go's [path] package: [Clean] and [Join] *)

Module Path.

(** A path under processing is the list of its bytes; [path[r:]] of the
    source is the list that remains to be read. *)
Definition bytes := list ascii.

Definition is_slash (c : ascii) : bool := Ascii.eqb c "/".
Definition is_dot (c : ascii) : bool := Ascii.eqb c ".".

(** [lazybuf]: the output buffer.  Only its contents [buf[0:w]] are
    observable; they are kept as a stack, the byte written last first, so
    that [out.w] is [length out], [out.append c] is [c :: out] and
    [out.w--] drops the head. *)
Definition lazybuf := list ascii.

(** [out.w--; for out.w > dotdot && out.index(out.w) != '/' { out.w-- }]:
    [out.index(out.w)] is the byte that the preceding [out.w--] dropped. *)
Fixpoint backtrack (out : lazybuf) (dotdot : nat) : lazybuf :=
  match out with
  | [] => []
  | c :: out' =>
      if (dotdot <? List.length out')%nat && negb (is_slash c)
      then backtrack out' dotdot
      else out'
  end.

(** [for ; r < n && path[r] != '/'; r++ { out.append(path[r]) }]: returns
    what is left to read and the buffer. *)
Fixpoint copy_elem (path : bytes) (out : lazybuf) : bytes * lazybuf :=
  match path with
  | [] => ([], out)
  | c :: rest => if is_slash c then (path, out) else copy_elem rest (c :: out)
  end.

(** [r+1 == n || path[r+1] == '/'], on what follows [path[r]]. *)
Definition ends_elem (rest : bytes) : bool :=
  match rest with
  | [] => true
  | c :: _ => is_slash c
  end.

(** The loop [for r < n { switch { ... } }] of [Clean].  Every iteration
    reads at least one byte, so [length path] iterations are enough; [fuel]
    bounds them. *)
Fixpoint clean_loop (fuel : nat) (rooted : bool) (path : bytes)
    (out : lazybuf) (dotdot : nat) : lazybuf :=
  match fuel with
  | 0 => out
  | S fuel' =>
      match path with
      | [] => out
      | c :: rest =>
          if is_slash c then
            (* empty path element *)
            clean_loop fuel' rooted rest out dotdot
          else if is_dot c && ends_elem rest then
            (* . element *)
            clean_loop fuel' rooted rest out dotdot
          else if is_dot c
                  && match rest with
                     | c1 :: rest2 => is_dot c1 && ends_elem rest2
                     | [] => false
                     end then
            (* .. element: remove to last / *)
            let rest2 := tl rest in
            if (dotdot <? List.length out)%nat then
              (* can backtrack *)
              clean_loop fuel' rooted rest2 (backtrack out dotdot) dotdot
            else if negb rooted then
              (* cannot backtrack, but not rooted, so append .. element *)
              let out1 := if (0 <? List.length out)%nat then "/"%char :: out else out in
              let out2 := "."%char :: "."%char :: out1 in
              clean_loop fuel' rooted rest2 out2 (List.length out2)
            else
              clean_loop fuel' rooted rest2 out dotdot
          else
            (* real path element: add slash if needed, copy element *)
            let out1 :=
              if (rooted && negb (List.length out =? 1)%nat)
                 || (negb rooted && negb (List.length out =? 0)%nat)
              then "/"%char :: out else out in
            let '(rest', out2) := copy_elem path out1 in
            clean_loop fuel' rooted rest' out2 dotdot
      end
  end.

(** [func Clean(path string) string] *)
Definition Clean (path : string) : string :=
  match list_ascii_of_string path with
  | [] => "."
  | (c :: rest) as p =>
      let rooted := is_slash c in
      let n := List.length p in
      let out :=
        if rooted then clean_loop n true rest ["/"%char] 1
        else clean_loop n false p [] 0 in
      (* Turn empty string into "." *)
      if (List.length out =? 0)%nat then "." else string_of_list_ascii (rev out)
  end.

(** [strings.Join(elem, sep)] *)
Definition strings_Join (elem : list string) (sep : string) : string :=
  String.concat sep elem.

(** [func Join(elem ...string) string]: the first non-empty element starts
    the path, the elements from there on are joined by "/" and cleaned. *)
Fixpoint Join (elem : list string) : string :=
  match elem with
  | [] => EmptyString
  | e :: rest =>
      if String.eqb e EmptyString then Join rest
      else Clean (strings_Join elem "/")
  end.

(** No two separators are adjacent in a list of bytes. *)
Fixpoint no_adjacent_slashes (l : list ascii) : bool :=
  match l with
  | c1 :: ((c2 :: _) as t) =>
      negb (is_slash c1 && is_slash c2) && no_adjacent_slashes t
  | _ => true
  end.

(** The first byte of a list, if any, is not a separator. *)
Definition top_not_slash (l : list ascii) : bool :=
  match l with
  | c :: _ => negb (is_slash c)
  | [] => true
  end.

(** What [Clean] keeps of its buffer on a rooted path: the leading
    separator at the bottom, above it elements and single separators, and
    no separator on top. *)
Definition rooted_buffer (out : lazybuf) : Prop :=
  exists u,
    out = (u ++ ["/"%char])%list
    /\ no_adjacent_slashes out = true
    /\ top_not_slash u = true.

(** The segments of a path: what stands between its separators. *)
Fixpoint segments (l : list ascii) : list (list ascii) :=
  match l with
  | [] => [[]]
  | c :: t =>
      if is_slash c then [] :: segments t
      else match segments t with
           | seg :: segs => (c :: seg) :: segs
           | [] => [[c]]
           end
  end.

(** No segment is [.] or [..]. *)
Definition dot_free (l : list ascii) : Prop :=
  forall seg,
    In seg (segments l) ->
    seg <> ["."%char] /\ seg <> ["."%char; "."%char].

(** No byte of the list is a separator. *)
Definition slash_free (l : list ascii) : bool :=
  forallb (fun c => negb (is_slash c)) l.

End Path.

(** ** The client: data, collaborators, effects *)

Module Client.

(** Go's [error]: a value made by [fmt.Errorf] in this file, whose message
    is known, or a value handed over by a collaborator (transport, JSON,
    body reader, context), identified by where it comes from. *)
Inductive error : Type :=
| Errorf (msg : string)
| Foreign (origin : string) (msg : string).

(** [err.Error()] *)
Definition Error (e : error) : string :=
  match e with
  | Errorf msg => msg
  | Foreign _ msg => msg
  end.

(** [interface{}]: the dynamic values a cursor can hold, those that
    [encoding/json] decodes into an [interface{}] and Go's integers. *)
#[warnings="-register-all"]
Inductive iface : Type :=
| Inil
| Istring (s : string)
| Ibool (b : bool)
| Iint (n : Z)
| Ifloat64 (bits : Z)
| Islice (l : list iface)
| Imap (m : list (string * iface)).

(** [_, ok := v.(string)] *)
Definition is_string (v : iface) : bool :=
  match v with
  | Istring _ => true
  | _ => false
  end.

(** [resp.Body], an [io.ReadCloser]: the bytes it delivers and how the
    stream ends, at EOF ([None]) or on a read failure. *)
Record ReadCloser : Type := {
  content : string;
  failure : option error
}.

(** [ioutil.ReadAll(r)] *)
Definition ReadAll (r : ReadCloser) : string * option error :=
  (content r, failure r).

(** [http.Request] and [http.Response], the fields the client touches. *)
Record Request : Type := {
  Method : string;
  URL : string;
  Header : list (string * string);
  ReqBody : option string
}.

Record Response : Type := {
  Status : string;
  StatusCode : Z;
  Body : ReadCloser
}.

Definition StatusOK : Z := 200.

(** [req.Header.Set(key, value)] *)
Definition Header_Set (req : Request) (key value : string) : Request :=
  {| Method := Method req;
     URL := URL req;
     Header := (key, value)
               :: filter (fun kv => negb (String.eqb (fst kv) key)) (Header req);
     ReqBody := ReqBody req |}.

(** A [*subnet.Lease] is an address in the heap of lease records. *)
Definition ptr := nat.

(** [subnet.WatchResult]: [Cursor], the field the client inspects, and the
    other fields, whose type [D] belongs to package [subnet]. *)
Record WatchResult (D : Type) : Type := {
  Data : D;
  Cursor : iface
}.
Arguments Data {D} _.
Arguments Cursor {D} _.

(** The collaborators of the client, outside [remote/client.go]: the
    records of package [subnet], [encoding/json], [net/http] and, behind
    [httpDo], the transport and the context. *)
Record World : Type := {
  Config : Type;
  LeaseAttrs : Type;
  Lease : Type;
  (** the fields of [subnet.WatchResult] other than [Cursor] *)
  WatchData : Type;
  zeroData : WatchData;
  (** [lease.Key()] *)
  Key : Lease -> string;
  (** [json.Marshal(attrs)], [attrs] a possibly nil pointer *)
  Marshal_LeaseAttrs : option LeaseAttrs -> string + error;
  (** [json.Marshal(lease)] *)
  Marshal_Lease : Lease -> string + error;
  (** [json.NewDecoder(body).Decode(v)], [v] a fresh zero value *)
  Decode_Config : ReadCloser -> Config + error;
  Decode_Lease : ReadCloser -> Lease + error;
  Decode_WatchResult : ReadCloser -> WatchResult WatchData + error;
  (** the failure of [http.NewRequest(method, url, body)], if any *)
  NewRequest_err : string -> string -> option error;
  (** what [httpDo] hands back for a request: see [Executor] *)
  roundtrip : Request -> Response + error
}.

(** The effects of the client on the outside. *)
Inductive event : Type :=
| Do (req : Request)   (* [httpDo] is called with [req] *)
| ReadBody             (* [resp.Body] is read, by [ReadAll] or by a decoder *)
| CloseBody.           (* [resp.Body.Close()] *)

(** Computations that log their effects. *)
Definition M (A : Type) : Type := A * list event.

Definition ret {A : Type} (a : A) : M A := (a, []).

Definition bind {A B : Type} (m : M A) (k : A -> M B) : M B :=
  let '(a, l1) := m in
  let '(b, l2) := k a in
  (b, (l1 ++ l2)%list).

Definition emit (e : event) : M unit := (tt, [e]).

Definition value {A : Type} (m : M A) : A := fst m.
Definition effects {A : Type} (m : M A) : list event := snd m.

Declare Scope client_scope.
Delimit Scope client_scope with client.
Notation "x <- m ;; k" := (bind m (fun x => k))
  (at level 61, m at next level, right associativity) : client_scope.
Notation "m ;; k" := (bind m (fun _ => k))
  (at level 61, right associativity) : client_scope.
Open Scope client_scope.

(** [defer resp.Body.Close()]: the body is closed when the rest returns. *)
Definition defer_Close {A : Type} (rest : M A) : M A :=
  a <- rest ;; emit CloseBody ;; ret a.

Record RemoteManager : Type := {
  base : string
}.

(** [func NewRemoteManager(listenAddr string) subnet.Manager] *)
Definition NewRemoteManager (listenAddr : string) : RemoteManager :=
  {| base := "http://" ++ listenAddr ++ "/v1" |}.

(** [func (m *RemoteManager) mkurl(network string, parts ...string) string] *)
Definition mkurl (m : RemoteManager) (network : string) (parts : list string)
    : string :=
  let network := if String.eqb network EmptyString then "/_" else network in
  let network :=
    match network with
    | String c _ => if negb (Ascii.eqb c "/") then "/" ++ network else network
    | EmptyString => network  (* [network[0]] on the empty string: excluded by the line before *)
    end in
  base m ++ Path.Join (network :: parts).

(** The first byte of a string, [s[0]], when there is one. *)
Definition byte0 (s : string) : option ascii := String.get 0 s.

(** The network segment that [mkurl] joins, after its two tests. *)
Definition normalize (network : string) : string :=
  match network with
  | EmptyString => "/_"
  | String c _ => if Ascii.eqb c "/" then network else "/" ++ network
  end.

Section Operations.

Variable W : World.

(** The lease records that pointers of the caller refer to. *)
Definition heap : Type := ptr -> option (Lease W).

(** [*p = v] *)
Definition store (h : heap) (p : ptr) (v : Lease W) : heap :=
  fun q => if Nat.eqb q p then Some v else h q.

(** [subnet.WatchResult{}] *)
Definition zeroWatchResult : WatchResult (WatchData W) :=
  {| Data := zeroData W; Cursor := Inil |}.

(** [http.NewRequest(method, url, body)] *)
Definition NewRequest (method url : string) (body : option string)
    : Request + error :=
  match NewRequest_err W method url with
  | Some err => inr err
  | None =>
      inl {| Method := method; URL := url; Header := []; ReqBody := body |}
  end.

(** [func httpDo(ctx, req)], seen from its caller:
    one request goes out, one answer comes back. *)
Definition httpDo (req : Request) : M (Response + error) :=
  emit (Do req) ;; ret (roundtrip W req).

(** [func httpGet(ctx, url string)] *)
Definition httpGet (url : string) : M (Response + error) :=
  match NewRequest "GET" url None with
  | inr err => ret (inr err)
  | inl req => httpDo req
  end.

(** [func httpPutPost(ctx, method, url, contentType string, body []byte)] *)
Definition httpPutPost (method url contentType : string) (body : string)
    : M (Response + error) :=
  match NewRequest method url (Some body) with
  | inr err => ret (inr err)
  | inl req => httpDo (Header_Set req "Content-Type" contentType)
  end.

(** [func httpError(resp *http.Response) error];
    [fmt.Errorf("%v: %v", resp.Status, string(b))] *)
Definition httpError (resp : Response) : M error :=
  emit ReadBody ;;
  let '(b, err) := ReadAll (Body resp) in
  match err with
  | Some err => ret err
  | None => ret (Errorf (Status resp ++ ": " ++ b))
  end.

(** [json.NewDecoder(resp.Body).Decode(v)] *)
Definition Decode {A : Type} (dec : ReadCloser -> A + error) (resp : Response)
    : M (A + error) :=
  emit ReadBody ;; ret (dec (Body resp)).

(** [func (m *RemoteManager) GetNetworkConfig(ctx, network string)],
    returning a [*subnet.Config] and an [error] *)
Definition GetNetworkConfig (m : RemoteManager) (network : string)
    : M (option (Config W) * option error) :=
  let url := mkurl m network ["config"] in
  r <- httpGet url ;;
  match r with
  | inr err => ret (None, Some err)
  | inl resp =>
      defer_Close
        (if negb (StatusCode resp =? StatusOK)%Z then
           err <- httpError resp ;; ret (None, Some err)
         else
           d <- Decode (Decode_Config W) resp ;;
           match d with
           | inr err => ret (None, Some err)
           | inl config => ret (Some config, None)
           end)
  end.

(** [func (m *RemoteManager) AcquireLease(ctx, network string,
      attrs *subnet.LeaseAttrs)], returning a [*subnet.Lease] and an [error] *)
Definition AcquireLease (m : RemoteManager) (network : string)
    (attrs : option (LeaseAttrs W)) : M (option (Lease W) * option error) :=
  let url := mkurl m network ["leases/"] in
  match Marshal_LeaseAttrs W attrs with
  | inr err => ret (None, Some err)
  | inl body =>
      r <- httpPutPost "POST" url "application/json" body ;;
      match r with
      | inr err => ret (None, Some err)
      | inl resp =>
          defer_Close
            (if negb (StatusCode resp =? StatusOK)%Z then
               err <- httpError resp ;; ret (None, Some err)
             else
               d <- Decode (Decode_Lease W) resp ;;
               match d with
               | inr err => ret (None, Some err)
               | inl newLease => ret (Some newLease, None)
               end)
      end
  end.

(** [func (m *RemoteManager) RenewLease(ctx, network string,
      lease *subnet.Lease) error].  The result is the heap at the return
    and the error; [None] is the panic of [lease.Key()] on a pointer that
    refers to no record. *)
Definition RenewLease (m : RemoteManager) (network : string) (lease : ptr)
    (h : heap) : M (option (heap * option error)) :=
  match h lease with
  | None => ret None
  | Some l =>
      let url := mkurl m network ["leases"; Key W l] in
      match Marshal_Lease W l with
      | inr err => ret (Some (h, Some err))
      | inl body =>
          r <- httpPutPost "PUT" url "application/json" body ;;
          match r with
          | inr err => ret (Some (h, Some err))
          | inl resp =>
              defer_Close
                (if negb (StatusCode resp =? StatusOK)%Z then
                   err <- httpError resp ;; ret (Some (h, Some err))
                 else
                   d <- Decode (Decode_Lease W) resp ;;
                   match d with
                   | inr err => ret (Some (h, Some err))
                   | inl newLease => ret (Some (store h lease newLease, None))
                   end)
          end
      end
  end.

(** [func (m *RemoteManager) WatchLeases(ctx, network string,
      cursor interface{}) (subnet.WatchResult, error)];
    [fmt.Sprintf("%v?next=%v", url, c)] *)
Definition WatchLeases (m : RemoteManager) (network : string) (cursor : iface)
    : M (WatchResult (WatchData W) * option error) :=
  let url := mkurl m network ["leases"] in
  let url' :=
    match cursor with
    | Inil => inl url
    | Istring c => inl (url ++ "?next=" ++ c)
    | _ =>
        inr (Errorf
          "internal error: RemoteManager.WatchLeases received non-string cursor")
    end in
  match url' with
  | inr err => ret (zeroWatchResult, Some err)
  | inl url =>
      r <- httpGet url ;;
      match r with
      | inr err => ret (zeroWatchResult, Some err)
      | inl resp =>
          if negb (StatusCode resp =? StatusOK)%Z then
            err <- httpError resp ;; ret (zeroWatchResult, Some err)
          else
            d <- Decode (Decode_WatchResult W) resp ;;
            match d with
            | inr err => ret (zeroWatchResult, Some err)
            | inl wr =>
                if negb (is_string (Cursor wr)) then
                  ret (zeroWatchResult,
                       Some (Errorf "lease watch returned non-string cursor"))
                else ret (wr, None)
            end
      end
  end.

(** The effects [log] of an operation include a request that the
    executor answered with the response [resp]. *)
Definition answered (log : list event) (resp : Response) : Prop :=
  exists req, In (Do req) log /\ roundtrip W req = inl resp.

(** The effects [log] of an operation include a request on which the
    executor returned the error [e]. *)
Definition failed (log : list event) (e : error) : Prop :=
  exists req, In (Do req) log /\ roundtrip W req = inr e.

(** The effects of one attempt: nothing; a request on which the executor
    returned an error; a request, one read of the body of its response
    and, when [closes], the closing of that body. *)
Definition one_attempt (closes : bool) (log : list event) : Prop :=
  log = []
  \/ (exists req e, roundtrip W req = inr e /\ log = [Do req])
  \/ (exists req resp,
        roundtrip W req = inl resp
        /\ log = Do req :: ReadBody :: (if closes then [CloseBody] else [])).

End Operations.

End Client.

(** ** The cancellable executor: [httpDo] and its goroutine *)

Module Executor.

Import Client.

(** [type httpRespErr struct { resp *http.Response; err error }] *)
Record httpRespErr : Type := {
  resp : option Response;
  err : option error
}.

(** Where [httpDo] stands. *)
Inductive main_pc : Type :=
| AtGo                        (* [c := make(chan httpRespErr, 1)] done, before [go func()] *)
| AtSelect                    (* at [select] *)
| AtCancelRequest             (* in [case <-ctx.Done()], before [tr.CancelRequest(req)] *)
| AtDrain                     (* before [<-c] *)
| AtCtxErr                    (* before [return nil, ctx.Err()] *)
| Returned (r : httpRespErr). (* [httpDo] returned [r.resp, r.err] *)

(** Where the goroutine stands. *)
Inductive go_pc : Type :=
| NotStarted
| InDo                        (* inside [client.Do(req)] *)
| AtSend (r : httpRespErr)    (* [client.Do] returned, before [c <- httpRespErr{resp, err}] *)
| Finished (r : httpRespErr). (* the send is done, the function has ended *)

(** The state shared by [httpDo], its goroutine and their environment:
    [chan] is the buffer of [c], of capacity 1; [ctx] is [ctx.Err()],
    [None] as long as [ctx.Done()] is open; [cancelRequested] records the
    call of [tr.CancelRequest(req)]. *)
Record state : Type := {
  main : main_pc;
  goroutine : go_pc;
  chan : option httpRespErr;
  ctx : option error;
  cancelRequested : bool
}.

(** The atomic steps: of [httpDo], of the goroutine, and of the
    environment (the context is cancelled or expires with error [e]; the
    transport call ends with result [r]). *)
Inductive label : Type :=
| Go
| SelectDone
| SelectRecv
| CancelRequest
| Drain
| ReturnCtxErr
| ChanSend
| CtxDone (e : error)
| DoReturns (r : httpRespErr).

Definition set_main (s : state) (pc : main_pc) : state :=
  {| main := pc; goroutine := goroutine s; chan := chan s; ctx := ctx s;
     cancelRequested := cancelRequested s |}.

(** One step; [None] when the step cannot be taken in [s]: [select]
    proceeds with a case that is ready, either of them when both are;
    [<-c] waits for a value; the send on [c] needs the buffer free. *)
Definition step (l : label) (s : state) : option state :=
  match l, main s, goroutine s with
  | Go, AtGo, NotStarted =>
      Some {| main := AtSelect; goroutine := InDo; chan := chan s;
              ctx := ctx s; cancelRequested := cancelRequested s |}
  | SelectDone, AtSelect, _ =>
      match ctx s with
      | Some _ => Some (set_main s AtCancelRequest)
      | None => None
      end
  | SelectRecv, AtSelect, _ =>
      match chan s with
      | Some r =>
          Some {| main := Returned r; goroutine := goroutine s; chan := None;
                  ctx := ctx s; cancelRequested := cancelRequested s |}
      | None => None
      end
  | CancelRequest, AtCancelRequest, _ =>
      Some {| main := AtDrain; goroutine := goroutine s; chan := chan s;
              ctx := ctx s; cancelRequested := true |}
  | Drain, AtDrain, _ =>
      match chan s with
      | Some _ =>
          Some {| main := AtCtxErr; goroutine := goroutine s; chan := None;
                  ctx := ctx s; cancelRequested := cancelRequested s |}
      | None => None
      end
  | ReturnCtxErr, AtCtxErr, _ =>
      Some (set_main s (Returned {| resp := None; err := ctx s |}))
  | ChanSend, _, AtSend r =>
      match chan s with
      | None =>
          Some {| main := main s; goroutine := Finished r; chan := Some r;
                  ctx := ctx s; cancelRequested := cancelRequested s |}
      | Some _ => None
      end
  | CtxDone e, _, _ =>
      match ctx s with
      | None =>
          Some {| main := main s; goroutine := goroutine s; chan := chan s;
                  ctx := Some e; cancelRequested := cancelRequested s |}
      | Some _ => None
      end
  | DoReturns r, _, InDo =>
      Some {| main := main s; goroutine := AtSend r; chan := chan s;
              ctx := ctx s; cancelRequested := cancelRequested s |}
  | _, _, _ => None
  end.

(** An interleaving is the list of the steps taken, in order. *)
Fixpoint run (sched : list label) (s : state) : option state :=
  match sched with
  | [] => Some s
  | l :: sched' =>
      match step l s with
      | Some s' => run sched' s'
      | None => None
      end
  end.

(** [httpDo] is entered with a context that may already be done. *)
Definition init (c : option error) : state :=
  {| main := AtGo; goroutine := NotStarted; chan := None; ctx := c;
     cancelRequested := false |}.

(** The context is done strictly before the transport call completes: it
    is done at the entry, or [CtxDone] precedes [DoReturns]. *)
Fixpoint done_before_completion (sched : list label) : bool :=
  match sched with
  | [] => false
  | CtxDone _ :: _ => true
  | DoReturns _ :: _ => false
  | _ :: sched' => done_before_completion sched'
  end.

Definition returned (s : state) : option httpRespErr :=
  match main s with
  | Returned r => Some r
  | _ => None
  end.

Definition finished (s : state) : bool :=
  match goroutine s with
  | Finished _ => true
  | _ => false
  end.

(** The steps of [select]. *)
Definition is_select (l : label) : bool :=
  match l with
  | SelectDone | SelectRecv => true
  | _ => false
  end.

(** [context.Canceled] *)
Definition Canceled : error := Foreign "context" "context canceled".

(** Once started, the goroutine holds its result until it sends it, and
    [httpDo] is the only receiver on [c]. *)
Definition goroutine_chan (s : state) : Prop :=
  match goroutine s with
  | NotStarted => False
  | InDo | AtSend _ => chan s = None
  | Finished r => chan s = Some r
  end.

(** What holds at each point of [httpDo], in every interleaving. *)
Definition Inv (s : state) : Prop :=
  match main s with
  | AtGo =>
      goroutine s = NotStarted /\ chan s = None /\ cancelRequested s = false
  | AtSelect => cancelRequested s = false /\ goroutine_chan s
  | AtCancelRequest =>
      ctx s <> None /\ cancelRequested s = false /\ goroutine_chan s
  | AtDrain => ctx s <> None /\ cancelRequested s = true /\ goroutine_chan s
  | AtCtxErr =>
      ctx s <> None /\ cancelRequested s = true
      /\ finished s = true /\ chan s = None
  | Returned r =>
      finished s = true /\ chan s = None
      /\ if cancelRequested s
         then exists e, ctx s = Some e /\ r = {| resp := None; err := Some e |}
         else goroutine s = Finished r
  end.

(** [httpDo] is in or past the case [<-ctx.Done()] of its [select]. *)
Definition on_cancel_path (s : state) : Prop :=
  match main s with
  | AtCancelRequest => True
  | AtDrain | AtCtxErr | Returned _ => cancelRequested s = true
  | AtGo | AtSelect => False
  end.

(** Results for the transport call to end with. *)
Definition answer200 : httpRespErr :=
  {| resp := Some {| Status := "200 OK"; StatusCode := 200;
                     Body := {| content := "10.0.0.0/16"; failure := None |} |};
     err := None |}.

Definition aborted : httpRespErr :=
  {| resp := None; err := Some (Foreign "net/http" "request canceled") |}.

(** The steps that let the goroutine finish, from where it stands. *)
Definition let_finish (s : state) : list label :=
  match goroutine s with
  | NotStarted => []
  | InDo => [DoReturns aborted; ChanSend]
  | AtSend _ => [ChanSend]
  | Finished _ => []
  end.

(** The interleaving in which the context is cancelled while the transport
    call is under way, and [httpDo] is not scheduled again before the
    goroutine has sent its result. *)
Definition late_select : list label :=
  [Go; CtxDone Canceled; DoReturns answer200; ChanSend; SelectRecv].

(** The steps of the case [<-ctx.Done()], after [select] has taken it:
    the request is cancelled, the goroutine finishes, its result is
    drained and the error of the context is returned. *)
Definition cancellation (s : state) : list label :=
  (CancelRequest :: let_finish s ++ [Drain; ReturnCtxErr])%list.

(** The interleaving that brings [httpDo] to its [select] with both cases
    ready: the context is done and the result is on the channel. *)
Definition both_ready : list label :=
  [Go; CtxDone Canceled; DoReturns answer200; ChanSend].

(** A way for [httpDo] to return, from where it stands. *)
Definition way_out (s : state) : list label :=
  match main s with
  | AtGo => [Go; DoReturns aborted; ChanSend; SelectRecv]
  | AtSelect => (let_finish s ++ [SelectRecv])%list
  | AtCancelRequest =>
      (CancelRequest :: let_finish s ++ [Drain; ReturnCtxErr])%list
  | AtDrain => (let_finish s ++ [Drain; ReturnCtxErr])%list
  | AtCtxErr => [ReturnCtxErr]
  | Returned _ => []
  end.

(** The steps that [httpDo], its goroutine and the context can still
    take. *)
Definition budget (s : state) : nat :=
  match main s with
  | AtGo => 5
  | AtSelect => 4
  | AtCancelRequest => 3
  | AtDrain => 2
  | AtCtxErr => 1
  | Returned _ => 0
  end
  + match goroutine s with
    | NotStarted | InDo => 2
    | AtSend _ => 1
    | Finished _ => 0
    end
  + match ctx s with
    | None => 1
    | Some _ => 0
    end.

(** The steps of the environment on the context. *)
Definition is_CtxDone (l : label) : bool :=
  match l with
  | CtxDone _ => true
  | _ => false
  end.

(** The interleaving in which the context is cancelled while the transport
    call is under way and [httpDo] takes the cancellation. *)
Definition cancelled_run : list label :=
  [Go; CtxDone Canceled; SelectDone; CancelRequest; DoReturns aborted;
   ChanSend; Drain; ReturnCtxErr].

(** The goroutine holds [r], the result of its transport call. *)
Definition holds_result (s : state) (r : httpRespErr) : Prop :=
  goroutine s = AtSend r \/ goroutine s = Finished r.

End Executor.

(** ** A concrete world, to run the client on *)

Module Demo.

Import Client.

Definition EOF : error := Foreign "io" "EOF".

(** A toy codec: a record is its text; a watch result [cursor=<text>] holds
    a string cursor, any other text the number 42. *)
Definition marshal (s : string) : string + error := inl s.

Definition marshal_ptr (s : option string) : string + error :=
  match s with
  | Some s => inl s
  | None => inl "null"
  end.

Definition decode (r : ReadCloser) : string + error :=
  match failure r with
  | Some e => inr e
  | None => if String.eqb (content r) EmptyString then inr EOF else inl (content r)
  end.

Definition decode_watch (r : ReadCloser) : WatchResult string + error :=
  match decode r with
  | inr e => inr e
  | inl s =>
      if String.prefix "cursor=" s
      then inl {| Data := s;
                  Cursor := Istring (String.substring 7 (String.length s - 7) s) |}
      else inl {| Data := s; Cursor := Ifloat64 4631107791820423168 |}
  end.

(** The world whose server is [answer] and whose requests are all
    well formed. *)
Definition world (answer : Request -> Response + error) : World :=
  {| Config := string;
     LeaseAttrs := string;
     Lease := string;
     WatchData := string;
     zeroData := EmptyString;
     Key := fun l => l;
     Marshal_LeaseAttrs := marshal_ptr;
     Marshal_Lease := marshal;
     Decode_Config := decode;
     Decode_Lease := decode;
     Decode_WatchResult := decode_watch;
     NewRequest_err := fun _ _ => None;
     roundtrip := answer |}.

Definition reply (status : string) (code : Z) (text : string) : Response :=
  {| Status := status; StatusCode := code;
     Body := {| content := text; failure := None |} |}.

(** Servers: one that answers 200 with a fixed text, one that answers 404,
    one whose body cannot be read, one that cannot be reached. *)
Definition ok (text : string) : Request -> Response + error :=
  fun _ => inl (reply "200 OK" 200 text).

Definition not_found : Request -> Response + error :=
  fun _ => inl (reply "404 Not Found" 404 "no such network").

Definition broken_body : Request -> Response + error :=
  fun _ => inl {| Status := "500 Internal Server Error"; StatusCode := 500;
                  Body := {| content := "par";
                             failure := Some (Foreign "net" "connection reset") |} |}.

Definition unreachable : Request -> Response + error :=
  fun _ => inr (Foreign "net" "connection refused").

Definition m : RemoteManager := NewRemoteManager "10.0.0.1:8888".

(** A heap with one lease record, at address 1. *)
Definition heap1 (l : string) : ptr -> option string :=
  fun p => if Nat.eqb p 1 then Some l else None.

(** Worlds with a fault: records that do not serialize; requests that
    [http.NewRequest] refuses; leases whose key is empty. *)
Definition unserializable (answer : Request -> Response + error) : World :=
  {| Config := string;
     LeaseAttrs := string;
     Lease := string;
     WatchData := string;
     zeroData := EmptyString;
     Key := fun l => l;
     Marshal_LeaseAttrs := fun _ => inr (Foreign "json" "unsupported value");
     Marshal_Lease := fun _ => inr (Foreign "json" "unsupported value");
     Decode_Config := decode;
     Decode_Lease := decode;
     Decode_WatchResult := decode_watch;
     NewRequest_err := fun _ _ => None;
     roundtrip := answer |}.

Definition refusing (answer : Request -> Response + error) : World :=
  {| Config := string;
     LeaseAttrs := string;
     Lease := string;
     WatchData := string;
     zeroData := EmptyString;
     Key := fun l => l;
     Marshal_LeaseAttrs := marshal_ptr;
     Marshal_Lease := marshal;
     Decode_Config := decode;
     Decode_Lease := decode;
     Decode_WatchResult := decode_watch;
     NewRequest_err := fun _ _ => Some (Foreign "net/url" "invalid URL");
     roundtrip := answer |}.

Definition keyless (answer : Request -> Response + error) : World :=
  {| Config := string;
     LeaseAttrs := string;
     Lease := string;
     WatchData := string;
     zeroData := EmptyString;
     Key := fun _ => EmptyString;
     Marshal_LeaseAttrs := marshal_ptr;
     Marshal_Lease := marshal;
     Decode_Config := decode;
     Decode_Lease := decode;
     Decode_WatchResult := decode_watch;
     NewRequest_err := fun _ _ => None;
     roundtrip := answer |}.

End Demo.

(** * Properties *)

(** ** The embedding of [path] on Go's own tests *)

(** The table of [TestClean] and of [TestJoin] in Go's [path_test.go], as a
    check of the embedding. *)
Example Clean_table :
  map Path.Clean
    [EmptyString; "abc"; "abc/def"; "a/b/c"; "."; ".."; "../.."; "../../abc"; "/abc";
     "/"; "abc/"; "abc/def/"; "a/b/c/"; "./"; "../"; "../../"; "/abc/";
     "abc//def//ghi"; "//abc"; "///abc"; "//abc//"; "abc//"; "abc/./def";
     "/./abc/def"; "abc/."; "abc/def/ghi/../jkl"; "abc/def/../ghi/../jkl";
     "abc/def/.."; "abc/def/../.."; "/abc/def/../.."; "abc/def/../../..";
     "/abc/def/../../.."; "abc/def/../../../ghi/jkl/../../../mno";
     "abc/./../def"; "abc//./../def"; "abc/../../././../def"]
  = ["."; "abc"; "abc/def"; "a/b/c"; "."; ".."; "../.."; "../../abc"; "/abc";
     "/"; "abc"; "abc/def"; "a/b/c"; "."; ".."; "../.."; "/abc";
     "abc/def/ghi"; "/abc"; "/abc"; "/abc"; "abc"; "abc/def";
     "/abc/def"; "abc"; "abc/def/jkl"; "abc/jkl";
     "abc"; "."; "/"; "..";
     "/"; "../../mno";
     "def"; "def"; "../../def"].
Proof. reflexivity. Qed.

Example Join_table :
  map Path.Join
    [[]; [EmptyString]; ["a"]; ["a"; "b"]; ["a"; EmptyString];
     [EmptyString; "b"]; ["/"; "a"]; ["/"; EmptyString]; ["a/"; "b"];
     ["a/"; EmptyString]; [EmptyString; EmptyString]]
  = [EmptyString; EmptyString; "a"; "a/b"; "a"; "b"; "/a"; "/"; "a/b"; "a";
     EmptyString].
Proof. reflexivity. Qed.

(** The joins of [mkurl] in the four operations, for the network [foo]. *)
Example Join_of_mkurl :
  map Path.Join
    [["/foo"; "config"]; ["/foo"; "leases/"]; ["/foo"; "leases"; "10.5.1.0-24"];
     ["/foo"; "leases"]; ["/_"; "config"]; ["/"; "config"]]
  = ["/foo/config"; "/foo/leases"; "/foo/leases/10.5.1.0-24"; "/foo/leases";
     "/_/config"; "/config"].
Proof. reflexivity. Qed.

(** ** [Clean] drops a trailing separator *)

Module PathFacts.

Import Path.

Lemma ends_elem_app_slash (rest : bytes) :
  ends_elem (rest ++ ["/"%char])%list = ends_elem rest.
Proof. destruct rest; reflexivity. Qed.

Lemma copy_elem_app_slash (path : bytes) (out : lazybuf) :
  copy_elem (path ++ ["/"%char])%list out
  = ((fst (copy_elem path out) ++ ["/"%char])%list, snd (copy_elem path out)).
Proof.
  revert out.
  induction path as [|c rest IH]; intro out; [reflexivity|].
  simpl. destruct (is_slash c); [reflexivity | apply IH].
Qed.

(** [copy_elem] only reads: what it leaves is no longer than the path, and
    shorter when the path starts with a byte of an element. *)
Lemma copy_elem_length (path : bytes) (out : lazybuf) :
  List.length (fst (copy_elem path out)) <= List.length path.
Proof.
  revert out.
  induction path as [|c rest IH]; intro out; [apply Nat.le_refl|].
  simpl. destruct (is_slash c); simpl.
  - apply Nat.le_refl.
  - apply Nat.le_le_succ_r, IH.
Qed.

Lemma copy_elem_progress (c : ascii) (rest : bytes) (out : lazybuf) :
  is_slash c = false ->
  List.length (fst (copy_elem (c :: rest) out)) <= List.length rest.
Proof.
  intro Hc. simpl. rewrite Hc. apply copy_elem_length.
Qed.

(** The loop does not depend on its fuel, once there is enough of it. *)
Lemma clean_loop_fuel (f1 : nat) :
  forall (f2 : nat) (rooted : bool) (path : bytes) (out : lazybuf)
         (dotdot : nat),
    List.length path <= f1 ->
    List.length path <= f2 ->
    clean_loop f1 rooted path out dotdot = clean_loop f2 rooted path out dotdot.
Proof.
  induction f1 as [|f1 IH]; intros f2 rooted path out dotdot H1 H2.
  - destruct path; [|simpl in H1; lia]. destruct f2; reflexivity.
  - destruct path as [|c rest]; [destruct f2; reflexivity|].
    destruct f2 as [|f2]; [simpl in H2; lia|].
    simpl in H1, H2.
    cbn [clean_loop].
    destruct (is_slash c) eqn:Hc; [apply IH; lia|].
    destruct (is_dot c && ends_elem rest); [apply IH; lia|].
    destruct (is_dot c && _).
    + assert (Hrest : List.length (tl rest) <= List.length rest)
        by (destruct rest; simpl; lia).
      destruct (dotdot <? List.length out)%nat; [apply IH; lia|].
      destruct (negb rooted); apply IH; lia.
    + pose proof (copy_elem_progress c rest
        (if (rooted && negb (List.length out =? 1)%nat)
            || (negb rooted && negb (List.length out =? 0)%nat)
         then "/"%char :: out else out) Hc) as Hlen.
      destruct (copy_elem (c :: rest) _) as [rest' out2].
      simpl in Hlen. apply IH; lia.
Qed.

(** Reading one more separator at the end changes nothing. *)
Lemma clean_loop_app_slash (fuel : nat) :
  forall (rooted : bool) (path : bytes) (out : lazybuf) (dotdot : nat),
    List.length path < fuel ->
    clean_loop fuel rooted (path ++ ["/"%char])%list out dotdot
    = clean_loop fuel rooted path out dotdot.
Proof.
  induction fuel as [|fuel IH]; intros rooted path out dotdot Hlen; [lia|].
  destruct path as [|c rest].
  - simpl. destruct fuel; reflexivity.
  - simpl in Hlen.
    change ((c :: rest) ++ ["/"%char])%list
      with (c :: (rest ++ ["/"%char]))%list.
    cbn [clean_loop].
    rewrite ends_elem_app_slash.
    destruct (is_slash c) eqn:Hc; [apply IH; lia|].
    destruct (is_dot c && ends_elem rest); [apply IH; lia|].
    assert (Hdd :
      match (rest ++ ["/"%char])%list with
      | c1 :: rest2 => is_dot c1 && ends_elem rest2
      | [] => false
      end
      = match rest with
        | c1 :: rest2 => is_dot c1 && ends_elem rest2
        | [] => false
        end).
    { destruct rest as [|c1 rest2]; [reflexivity|].
      simpl. rewrite ends_elem_app_slash. reflexivity. }
    rewrite Hdd.
    destruct (is_dot c && _) eqn:Hdots.
    + destruct rest as [|c1 rest2];
        [rewrite andb_false_r in Hdots; discriminate|].
      simpl in Hlen. cbn [tl app].
      destruct (dotdot <? List.length out)%nat; [apply IH; lia|].
      destruct (negb rooted); apply IH; lia.
    + change (c :: (rest ++ ["/"%char]))%list
        with ((c :: rest) ++ ["/"%char])%list.
      rewrite copy_elem_app_slash.
      pose proof (copy_elem_progress c rest
        (if (rooted && negb (List.length out =? 1)%nat)
            || (negb rooted && negb (List.length out =? 0)%nat)
         then "/"%char :: out else out) Hc) as Hprog.
      destruct (copy_elem (c :: rest) _) as [rest' out2].
      simpl in Hprog |- *. apply IH; lia.
Qed.

Lemma list_ascii_of_string_app (s t : string) :
  list_ascii_of_string (s ++ t)
  = (list_ascii_of_string s ++ list_ascii_of_string t)%list.
Proof.
  induction s as [|c s IH]; [reflexivity|].
  simpl. rewrite IH. reflexivity.
Qed.

Lemma Clean_trailing_slash (p : string) :
  p <> EmptyString -> Clean (p ++ "/") = Clean p.
Proof.
  intro Hne. unfold Clean.
  rewrite list_ascii_of_string_app.
  destruct p as [|c rest]; [contradiction|].
  cbn [list_ascii_of_string app].
  set (l := list_ascii_of_string rest).
  change (list_ascii_of_string "/") with ["/"%char].
  assert (Hlen : List.length (c :: l ++ ["/"%char])%list
                 = S (List.length (c :: l))).
  { simpl. rewrite length_app. simpl. lia. }
  rewrite Hlen.
  destruct (is_slash c).
  - rewrite clean_loop_app_slash by (simpl; lia).
    rewrite (clean_loop_fuel _ (List.length (c :: l))) by (simpl; lia).
    reflexivity.
  - change (c :: l ++ ["/"%char])%list with ((c :: l) ++ ["/"%char])%list.
    rewrite clean_loop_app_slash by (simpl; lia).
    rewrite (clean_loop_fuel _ (List.length (c :: l))) by (simpl; lia).
    reflexivity.
Qed.

Lemma append_assoc (s t u : string) : (s ++ t) ++ u = s ++ (t ++ u).
Proof.
  induction s as [|c s IH]; [reflexivity|].
  simpl. rewrite IH. reflexivity.
Qed.

(** A trailing separator on the last element is lost in [Join]. *)
Lemma Join_trailing_slash (first last : string) :
  first <> EmptyString ->
  Join [first; last ++ "/"] = Join [first; last].
Proof.
  intro Hne.
  destruct first as [|c rest]; [contradiction|].
  cbn [Join String.eqb strings_Join String.concat].
  rewrite <- !append_assoc.
  apply Clean_trailing_slash.
  discriminate.
Qed.

End PathFacts.

(** ** Resource addressing *)

Module Addressing.

Import Client.

Lemma mkurl_normalize (m : RemoteManager) (network : string)
    (parts : list string) :
  mkurl m network parts = base m ++ Path.Join (normalize network :: parts).
Proof.
  unfold mkurl, normalize.
  destruct network as [|c rest]; [reflexivity|].
  cbn [String.eqb].
  destruct (Ascii.eqb c "/"); reflexivity.
Qed.

(** C3.  For every list of trailing segments, [mkurl] sends the empty
    network identifier to the segment [_]: [mkurl] of the empty string and
    [parts] equals [mkurl("_", parts...)]; and [GetNetworkConfig] on the
    empty network asks for [{base}/_/config]: when the request cannot be
    built the call fails with that error and no effect, otherwise its
    first effect is the [GET] of that address. *)
Theorem mkurl_empty_is_sentinel (W : World) (m : RemoteManager)
    (parts : list string) :
  mkurl m EmptyString parts = mkurl m "_" parts
  /\ mkurl m EmptyString ["config"] = base m ++ "/_/config"
  /\ match NewRequest_err W "GET" (base m ++ "/_/config") with
     | Some e => GetNetworkConfig W m EmptyString = ((None, Some e), [])
     | None =>
         exists rest,
           effects (GetNetworkConfig W m EmptyString)
           = Do {| Method := "GET"; URL := base m ++ "/_/config";
                   Header := []; ReqBody := None |} :: rest
     end.
Proof.
  split; [reflexivity|].
  split; [reflexivity|].
  unfold GetNetworkConfig, httpGet, NewRequest.
  change (mkurl m EmptyString ["config"]) with (base m ++ "/_/config").
  destruct (NewRequest_err W "GET" (base m ++ "/_/config")) as [e|].
  - reflexivity.
  - unfold httpDo, effects, bind, emit, ret.
    destruct (roundtrip W _) as [r|e]; cbn.
    + destruct (defer_Close _) as [a l]. eexists. reflexivity.
    + eexists. reflexivity.
Qed.

(** C4, as stated, fails at the empty identifier, which does not start
    with the separator: on the empty string [mkurl] joins [/_], on ["/"]
    it joins [/]. *)
Lemma mkurl_prepend_fails_on_empty :
  byte0 EmptyString <> Some "/"%char
  /\ mkurl Demo.m EmptyString ["config"] = "http://10.0.0.1:8888/v1/_/config"
  /\ mkurl Demo.m ("/" ++ EmptyString) ["config"]
     = "http://10.0.0.1:8888/v1/config"
  /\ ~ (forall (m : RemoteManager) (n : string) (parts : list string),
          byte0 n <> Some "/"%char ->
          mkurl m n parts = mkurl m ("/" ++ n) parts).
Proof.
  split; [discriminate|].
  split; [reflexivity|].
  split; [reflexivity|].
  intro H.
  assert (Hne : byte0 EmptyString <> Some "/"%char) by discriminate.
  specialize (H Demo.m EmptyString ["config"] Hne).
  vm_compute in H. discriminate H.
Qed.

(** C4, amended.  For every non-empty network identifier [n] that does not
    start with the separator and every list of trailing segments,
    [mkurl(n, parts...)] equals [mkurl("/"+n, parts...)]. *)
Theorem mkurl_prepend_separator (m : RemoteManager) (n : string)
    (parts : list string) :
  n <> EmptyString ->
  byte0 n <> Some "/"%char ->
  mkurl m n parts = mkurl m ("/" ++ n) parts.
Proof.
  intros Hne Hsep.
  rewrite !mkurl_normalize.
  destruct n as [|c rest]; [contradiction|].
  cbn in Hsep |- *.
  destruct (Ascii.eqb_spec c "/") as [->|_]; [contradiction|].
  reflexivity.
Qed.

Lemma mkurl_prepend_separator_witness :
  mkurl Demo.m "foo" ["leases"; "10.5.1.0-24"]
  = mkurl Demo.m "/foo" ["leases"; "10.5.1.0-24"].
Proof.
  apply (mkurl_prepend_separator Demo.m "foo" ["leases"; "10.5.1.0-24"]).
  - discriminate.
  - discriminate.
Defined.

End Addressing.

(** ** The lease protocol client *)

Module Protocol.

Import Client.

(** Unfold the operations down to the collaborators, and split on what
    the collaborators answer. *)
Ltac unfold_ops :=
  unfold GetNetworkConfig, AcquireLease, RenewLease, WatchLeases,
    httpGet, httpPutPost, NewRequest, httpDo, httpError, Decode,
    defer_Close, ReadAll, bind, emit, ret, value, effects, answered,
    failed in *.

Ltac innermost x :=
  lazymatch x with
  | context [match _ with _ => _ end] => fail
  | _ => idtac
  end.

Ltac split_on_answers :=
  repeat (cbn in *;
    match goal with
    | H : context [match ?x with _ => _ end] |- _ =>
        innermost x; destruct x eqn:?
    | |- context [match ?x with _ => _ end] =>
        innermost x; destruct x eqn:?
    end).

Ltac close_case :=
  unfold StatusOK in *; simpl in *;
  repeat match goal with
    | H : negb (_ =? _)%Z = true |- _ =>
        apply negb_true_iff, Z.eqb_neq in H
    | H : negb (_ =? _)%Z = false |- _ =>
        apply negb_false_iff, Z.eqb_eq in H
    | H : negb _ = true |- _ => apply negb_true_iff in H
    | H : negb _ = false |- _ => apply negb_false_iff in H
    | H : _ \/ _ |- _ => destruct H
    | H : _ /\ _ |- _ => destruct H
    | H : False |- _ => contradiction
    | H : Do _ = Do _ |- _ => injection H as H; subst
    | H : _ = Do _ |- _ => discriminate H
    | H : inl _ = inl _ |- _ => injection H as H; subst
    | H : inr _ = inr _ |- _ => injection H as H; subst
    | H : Some _ = Some _ |- _ => injection H as H; subst
    | H : (_, _) = (_, _) |- _ => inversion H; subst; clear H
    end;
  try discriminate; try congruence; try reflexivity.

Section Facts.

Variable W : World.

(** C5.  For every input cursor that is neither nil nor a string,
    [WatchLeases] returns at once the empty [WatchResult] and its
    internal-error value, with no effect: no request is sent. *)
Theorem WatchLeases_rejects_cursor (m : RemoteManager) (network : string)
    (cursor : iface) :
  cursor <> Inil ->
  is_string cursor = false ->
  WatchLeases W m network cursor
  = ((zeroWatchResult W,
      Some (Errorf
        "internal error: RemoteManager.WatchLeases received non-string cursor")),
     []).
Proof.
  intros Hnil Hstr.
  destruct cursor; try contradiction; try discriminate; reflexivity.
Qed.

(** C6.  For every [WatchLeases] call whose request is answered with
    status 200 and a body that decodes into a [WatchResult], if the decoded
    [Cursor] is not a string, the call returns the empty [WatchResult] and
    the protocol error, not the decoded result. *)
Theorem WatchLeases_rejects_decoded_cursor (m : RemoteManager)
    (network : string) (cursor : iface) (resp : Response)
    (wr : WatchResult (WatchData W)) :
  answered W (effects (WatchLeases W m network cursor)) resp ->
  StatusCode resp = 200%Z ->
  Decode_WatchResult W (Body resp) = inl wr ->
  is_string (Cursor wr) = false ->
  value (WatchLeases W m network cursor)
  = (zeroWatchResult W,
     Some (Errorf "lease watch returned non-string cursor")).
Proof.
  intros [req [Hin Hrt]] Hcode Hdec Hstr.
  unfold_ops; split_on_answers; close_case.
Qed.

Lemma store_same (h : heap W) (p : ptr) (v : Lease W) :
  store W h p v p = Some v.
Proof. unfold store. rewrite Nat.eqb_refl. reflexivity. Qed.

Lemma store_other (h : heap W) (p q : ptr) (v : Lease W) :
  q <> p -> store W h p v q = h q.
Proof.
  intro Hne. unfold store.
  destruct (Nat.eqb_spec q p); [contradiction | reflexivity].
Qed.

(** C7.  [RenewLease] is atomic on the caller's [Lease] record.  When the
    record serializes, the request is built and answered with status 200
    and a body that decodes into a [Lease], [RenewLease] stores that
    decoded value, whole, in the caller's record and returns no error.
    When it returns no error, all of that happened, and every other
    record is as before.  When it returns an error the heap is the one it
    was called with; and it returns the error of each failure: of the
    serialization, of the executor, of a status other than 200, of the
    decoding. *)
Theorem RenewLease_atomic (m : RemoteManager) (network : string)
    (lease : ptr) (h : heap W) (l : Lease W) :
  h lease = Some l ->
  let call := RenewLease W m network lease h in
  (exists (h' : heap W) (e : option error),
     value call = Some (h', e)
     /\ match e with
        | Some _ => h' = h
        | None =>
            exists (body : string) (resp : Response) (newLease : Lease W),
              Marshal_Lease W l = inl body
              /\ answered W (effects call) resp
              /\ StatusCode resp = 200%Z
              /\ Decode_Lease W (Body resp) = inl newLease
              /\ h' = store W h lease newLease
              /\ h' lease = Some newLease
              /\ (forall q, q <> lease -> h' q = h q)
        end)
  /\ (forall e, Marshal_Lease W l = inr e -> value call = Some (h, Some e))
  /\ (forall e, failed W (effects call) e -> value call = Some (h, Some e))
  /\ (forall resp,
        answered W (effects call) resp -> StatusCode resp <> 200%Z ->
        value call = Some (h, Some (value (httpError resp))))
  /\ (forall resp e,
        answered W (effects call) resp -> StatusCode resp = 200%Z ->
        Decode_Lease W (Body resp) = inr e ->
        value call = Some (h, Some e))
  /\ (forall resp newLease,
        answered W (effects call) resp -> StatusCode resp = 200%Z ->
        Decode_Lease W (Body resp) = inl newLease ->
        value call = Some (store W h lease newLease, None))
  /\ (forall body resp newLease,
        Marshal_Lease W l = inl body ->
        NewRequest_err W "PUT" (mkurl m network ["leases"; Key W l]) = None ->
        roundtrip W
          {| Method := "PUT";
             URL := mkurl m network ["leases"; Key W l];
             Header := [("Content-Type", "application/json")];
             ReqBody := Some body |} = inl resp ->
        StatusCode resp = 200%Z ->
        Decode_Lease W (Body resp) = inl newLease ->
        call
        = (Some (store W h lease newLease, None),
           [Do {| Method := "PUT";
                  URL := mkurl m network ["leases"; Key W l];
                  Header := [("Content-Type", "application/json")];
                  ReqBody := Some body |};
            ReadBody; CloseBody])
        /\ store W h lease newLease lease = Some newLease).
Proof.
  intros Hl call. subst call.
  split; [|split; [|split; [|split; [|split; [|split]]]]].
  - unfold_ops. rewrite Hl.
    split_on_answers; close_case;
      eexists; eexists; (split; [reflexivity|]); try reflexivity.
    do 3 eexists.
    split; [reflexivity|].
    split; [eexists; split; [left; reflexivity | eassumption]|].
    split; [assumption|].
    split; [eassumption|].
    split; [reflexivity|].
    split; [apply store_same | intros q Hq; apply store_other; exact Hq].
  - intros e He. unfold_ops. rewrite Hl, He. reflexivity.
  - intros e [req [Hin Hrt]].
    unfold_ops. rewrite Hl in *. split_on_answers; close_case.
  - intros resp [req [Hin Hrt]] Hcode.
    unfold_ops. rewrite Hl in *. split_on_answers; close_case.
  - intros resp e [req [Hin Hrt]] Hcode Hdec.
    unfold_ops. rewrite Hl in *. split_on_answers; close_case.
  - intros resp newLease [req [Hin Hrt]] Hcode Hdec.
    unfold_ops. rewrite Hl in *. split_on_answers; close_case.
  - intros body resp newLease Hbody Hreq Hrt Hcode Hdec.
    split; [|apply store_same].
    unfold RenewLease, httpPutPost, NewRequest, httpDo, Header_Set.
    rewrite Hl, Hbody, Hreq. cbn.
    rewrite Hrt. unfold defer_Close, Decode, bind, emit, ret. cbn.
    unfold StatusOK. rewrite Hcode. cbn. rewrite Hdec. reflexivity.
Qed.

(** C8.  For each of the four operations, an answer with status 200 is
    the only success: when the request is answered with any other status
    (201, 204, 400, 404, 500, ...) the operation returns an error and no
    decoded result (a nil pointer, the empty [WatchResult], the heap as it
    was); and when the operation returns no error, its request was
    answered with status 200. *)
Theorem only_200_succeeds (m : RemoteManager) (network : string)
    (attrs : option (LeaseAttrs W)) (lease : ptr) (h : heap W)
    (cursor : iface) :
  (forall resp : Response,
     StatusCode resp <> 200%Z ->
     (answered W (effects (GetNetworkConfig W m network)) resp ->
      exists e, value (GetNetworkConfig W m network) = (None, Some e))
     /\ (answered W (effects (AcquireLease W m network attrs)) resp ->
         exists e, value (AcquireLease W m network attrs) = (None, Some e))
     /\ (answered W (effects (RenewLease W m network lease h)) resp ->
         exists e,
           value (RenewLease W m network lease h) = Some (h, Some e))
     /\ (answered W (effects (WatchLeases W m network cursor)) resp ->
         exists e,
           value (WatchLeases W m network cursor)
           = (zeroWatchResult W, Some e)))
  /\ (snd (value (GetNetworkConfig W m network)) = None ->
      exists resp,
        answered W (effects (GetNetworkConfig W m network)) resp
        /\ StatusCode resp = 200%Z)
  /\ (snd (value (AcquireLease W m network attrs)) = None ->
      exists resp,
        answered W (effects (AcquireLease W m network attrs)) resp
        /\ StatusCode resp = 200%Z)
  /\ (forall h', value (RenewLease W m network lease h) = Some (h', None) ->
      exists resp,
        answered W (effects (RenewLease W m network lease h)) resp
        /\ StatusCode resp = 200%Z)
  /\ (snd (value (WatchLeases W m network cursor)) = None ->
      exists resp,
        answered W (effects (WatchLeases W m network cursor)) resp
        /\ StatusCode resp = 200%Z).
Proof.
  split; [intros resp Hcode; repeat split; intros [req [Hin Hrt]]|].
  - unfold_ops; split_on_answers; close_case; eexists; reflexivity.
  - unfold_ops; split_on_answers; close_case; eexists; reflexivity.
  - unfold_ops; split_on_answers; close_case; eexists; reflexivity.
  - unfold_ops; split_on_answers; close_case; eexists; reflexivity.
  - repeat split; [intros Hok | intros Hok | intros h' Hok | intros Hok].
    all: unfold_ops; split_on_answers; close_case.
    all: eexists; (split; [eexists; split; [left; reflexivity | eassumption]
                          | assumption]).
Qed.

(** C9.  For every response whose status is not 200, each operation that
    it answers returns the error of [httpError], which reads the body at
    once; when the body reads to its end the message of that error is the
    status line, the two bytes [: ] and the full text of the body; when
    reading the body fails, that error is the read failure itself. *)
Theorem non_200_error_message (m : RemoteManager) (network : string)
    (attrs : option (LeaseAttrs W)) (lease : ptr) (h : heap W)
    (cursor : iface) (resp : Response) :
  StatusCode resp <> 200%Z ->
  effects (httpError resp) = [ReadBody]
  /\ (failure (Body resp) = None ->
      Error (value (httpError resp))
      = Status resp ++ ": " ++ content (Body resp))
  /\ (forall e, failure (Body resp) = Some e ->
      value (httpError resp) = e)
  /\ (answered W (effects (GetNetworkConfig W m network)) resp ->
      value (GetNetworkConfig W m network)
      = (None, Some (value (httpError resp))))
  /\ (answered W (effects (AcquireLease W m network attrs)) resp ->
      value (AcquireLease W m network attrs)
      = (None, Some (value (httpError resp))))
  /\ (answered W (effects (RenewLease W m network lease h)) resp ->
      value (RenewLease W m network lease h)
      = Some (h, Some (value (httpError resp))))
  /\ (answered W (effects (WatchLeases W m network cursor)) resp ->
      value (WatchLeases W m network cursor)
      = (zeroWatchResult W, Some (value (httpError resp)))).
Proof.
  intro Hcode.
  split; [unfold_ops; destruct (failure (Body resp)); reflexivity|].
  split; [intro Hf; unfold_ops; rewrite Hf; reflexivity|].
  split; [intros e Hf; unfold_ops; rewrite Hf; reflexivity|].
  repeat split; intros [req [Hin Hrt]].
  all: unfold_ops; split_on_answers; close_case.
Qed.

(** C10.  [GetNetworkConfig], [AcquireLease] and [RenewLease] close the
    body of the response they obtained, once, as their last effect;
    [WatchLeases] never closes it, whether it succeeds, meets a status
    other than 200, fails to decode or rejects the cursor. *)
Theorem WatchLeases_never_closes_body (m : RemoteManager) (network : string)
    (attrs : option (LeaseAttrs W)) (lease : ptr) (h : heap W)
    (cursor : iface) :
  (forall resp,
     answered W (effects (GetNetworkConfig W m network)) resp ->
     exists pre,
       effects (GetNetworkConfig W m network) = (pre ++ [CloseBody])%list
       /\ ~ In CloseBody pre)
  /\ (forall resp,
       answered W (effects (AcquireLease W m network attrs)) resp ->
       exists pre,
         effects (AcquireLease W m network attrs) = (pre ++ [CloseBody])%list
         /\ ~ In CloseBody pre)
  /\ (forall resp,
       answered W (effects (RenewLease W m network lease h)) resp ->
       exists pre,
         effects (RenewLease W m network lease h) = (pre ++ [CloseBody])%list
         /\ ~ In CloseBody pre)
  /\ ~ In CloseBody (effects (WatchLeases W m network cursor)).
Proof.
  repeat split.
  1-3: intros resp [req [Hin Hrt]].
  1: exists (removelast (effects (GetNetworkConfig W m network))).
  2: exists (removelast (effects (AcquireLease W m network attrs))).
  3: exists (removelast (effects (RenewLease W m network lease h))).
  1-3: unfold_ops; split_on_answers; close_case;
       (split; [reflexivity | simpl; intuition discriminate]).
  intro Hin.
  unfold_ops; split_on_answers; close_case.
Qed.

(** [mkurl] gives ["leases/"] the address of ["leases"]. *)
Lemma mkurl_leases_trailing_slash (m : RemoteManager) (network : string) :
  mkurl m network ["leases/"] = mkurl m network ["leases"].
Proof.
  rewrite !Addressing.mkurl_normalize. f_equal.
  apply (PathFacts.Join_trailing_slash (normalize network) "leases").
  unfold normalize. destruct network as [|c rest]; [discriminate|].
  destruct (Ascii.eqb c "/"); discriminate.
Qed.

(** C2, on the code.  For every network identifier, when [attrs]
    serializes into [body] and the request can be built, the first effect
    of [AcquireLease] is the POST of [body], with content type
    [application/json], to the address [mkurl] builds from ["leases"]: for
    the network [foo] it is [{base}/foo/leases], with no separator after
    [leases], since [path.Join] cleans the ["leases/"] that [AcquireLease]
    passes. *)
Theorem AcquireLease_request (m : RemoteManager) (network : string)
    (attrs : option (LeaseAttrs W)) (body : string) :
  Marshal_LeaseAttrs W attrs = inl body ->
  NewRequest_err W "POST" (mkurl m network ["leases"]) = None ->
  mkurl m "foo" ["leases/"] = base m ++ "/foo/leases"
  /\ exists rest,
       effects (AcquireLease W m network attrs)
       = Do {| Method := "POST";
               URL := mkurl m network ["leases"];
               Header := [("Content-Type", "application/json")];
               ReqBody := Some body |} :: rest.
Proof.
  intros Hbody Hreq.
  split; [reflexivity|].
  unfold AcquireLease, httpPutPost, NewRequest.
  rewrite mkurl_leases_trailing_slash, Hbody, Hreq.
  unfold httpDo, effects, bind, emit, ret, Header_Set. cbn.
  destruct (roundtrip W _) as [r|e]; cbn.
  - destruct (defer_Close _) as [a l]. eexists. reflexivity.
  - eexists. reflexivity.
Qed.

End Facts.

(** The theorems at work on the concrete world. *)

Lemma AcquireLease_request_witness :
  mkurl Demo.m "foo" ["leases/"] = base Demo.m ++ "/foo/leases"
  /\ exists rest,
       effects (AcquireLease (Demo.world (Demo.ok "10.5.1.0-24")) Demo.m
                  "foo" (Some "attrs"))
       = Do {| Method := "POST";
               URL := mkurl Demo.m "foo" ["leases"];
               Header := [("Content-Type", "application/json")];
               ReqBody := Some "attrs" |} :: rest.
Proof.
  apply (AcquireLease_request (Demo.world (Demo.ok "10.5.1.0-24")) Demo.m
           "foo" (Some "attrs") "attrs").
  - reflexivity.
  - reflexivity.
Defined.

Lemma WatchLeases_rejects_cursor_witness :
  WatchLeases (Demo.world Demo.unreachable) Demo.m "foo" (Iint 7)
  = ((zeroWatchResult (Demo.world Demo.unreachable),
      Some (Errorf
        "internal error: RemoteManager.WatchLeases received non-string cursor")),
     []).
Proof.
  apply (WatchLeases_rejects_cursor (Demo.world Demo.unreachable) Demo.m
           "foo" (Iint 7)).
  - discriminate.
  - reflexivity.
Defined.

Lemma WatchLeases_rejects_decoded_cursor_witness :
  value (WatchLeases (Demo.world (Demo.ok "42")) Demo.m "foo"
           (Istring "abc123"))
  = (zeroWatchResult (Demo.world (Demo.ok "42")),
     Some (Errorf "lease watch returned non-string cursor")).
Proof.
  apply (WatchLeases_rejects_decoded_cursor (Demo.world (Demo.ok "42"))
           Demo.m "foo" (Istring "abc123") (Demo.reply "200 OK" 200 "42")
           {| Data := "42"; Cursor := Ifloat64 4631107791820423168 |}).
  - eexists. split; [left; reflexivity | reflexivity].
  - reflexivity.
  - reflexivity.
  - reflexivity.
Defined.

Lemma RenewLease_atomic_witness :
  (RenewLease (Demo.world (Demo.ok "renewed")) Demo.m "foo" 1
     (Demo.heap1 "10.5.1.0-24")
   = (Some (store (Demo.world (Demo.ok "renewed"))
              (Demo.heap1 "10.5.1.0-24") 1 "renewed", None),
      [Do {| Method := "PUT";
             URL := mkurl Demo.m "foo" ["leases"; "10.5.1.0-24"];
             Header := [("Content-Type", "application/json")];
             ReqBody := Some "10.5.1.0-24" |};
       ReadBody; CloseBody])
   /\ store (Demo.world (Demo.ok "renewed")) (Demo.heap1 "10.5.1.0-24") 1
        "renewed" 1
      = Some "renewed")
  /\ value (RenewLease (Demo.world Demo.not_found) Demo.m "foo" 1
              (Demo.heap1 "10.5.1.0-24"))
     = Some (Demo.heap1 "10.5.1.0-24",
             Some (value (httpError
                     (Demo.reply "404 Not Found" 404 "no such network")))).
Proof.
  split.
  - pose proof (RenewLease_atomic (Demo.world (Demo.ok "renewed")) Demo.m
                  "foo" 1 (Demo.heap1 "10.5.1.0-24") "10.5.1.0-24" eq_refl)
      as H.
    cbv zeta in H. destruct H as [_ [_ [_ [_ [_ [_ Hok]]]]]].
    apply (Hok "10.5.1.0-24" (Demo.reply "200 OK" 200 "renewed") "renewed").
    + reflexivity.
    + reflexivity.
    + reflexivity.
    + reflexivity.
    + reflexivity.
  - apply (RenewLease_atomic (Demo.world Demo.not_found) Demo.m "foo" 1
             (Demo.heap1 "10.5.1.0-24") "10.5.1.0-24" eq_refl).
    + eexists. split; [left; reflexivity | reflexivity].
    + discriminate.
Defined.

Lemma only_200_succeeds_witness :
  exists e,
    value (GetNetworkConfig (Demo.world Demo.not_found) Demo.m "foo")
    = (None, Some e).
Proof.
  apply (proj1 (only_200_succeeds (Demo.world Demo.not_found) Demo.m "foo"
                  None 1 (Demo.heap1 "10.5.1.0-24") Inil)
           (Demo.reply "404 Not Found" 404 "no such network")).
  - discriminate.
  - eexists. split; [left; reflexivity | reflexivity].
Defined.

Lemma non_200_error_message_witness :
  Error (value (httpError (Demo.reply "404 Not Found" 404 "no such network")))
  = "404 Not Found: no such network".
Proof.
  apply (non_200_error_message (Demo.world Demo.not_found) Demo.m "foo"
           None 1 (Demo.heap1 "10.5.1.0-24") Inil
           (Demo.reply "404 Not Found" 404 "no such network")).
  - discriminate.
  - reflexivity.
Defined.

Lemma WatchLeases_never_closes_body_witness :
  (exists pre,
     effects (GetNetworkConfig (Demo.world (Demo.ok "10.0.0.0/16")) Demo.m
                "foo")
     = (pre ++ [CloseBody])%list
     /\ ~ In CloseBody pre)
  /\ ~ In CloseBody
        (effects (WatchLeases (Demo.world (Demo.ok "cursor=xyz")) Demo.m
                    "foo" Inil)).
Proof.
  split.
  - apply (proj1 (WatchLeases_never_closes_body
                    (Demo.world (Demo.ok "10.0.0.0/16")) Demo.m "foo"
                    None 1 (Demo.heap1 "10.5.1.0-24") Inil)
             (Demo.reply "200 OK" 200 "10.0.0.0/16")).
    eexists. split; [left; reflexivity | reflexivity].
  - apply (WatchLeases_never_closes_body
             (Demo.world (Demo.ok "cursor=xyz")) Demo.m "foo"
             None 1 (Demo.heap1 "10.5.1.0-24") Inil).
Defined.

End Protocol.


(** ** The client at work, on the concrete world *)

Module Runs.

Import Client.

Example GetNetworkConfig_ok :
  GetNetworkConfig (Demo.world (Demo.ok "10.0.0.0/16")) Demo.m EmptyString
  = ((Some "10.0.0.0/16", None),
     [Do {| Method := "GET"; URL := "http://10.0.0.1:8888/v1/_/config";
            Header := []; ReqBody := None |};
      ReadBody; CloseBody]).
Proof. reflexivity. Qed.

Example AcquireLease_ok :
  AcquireLease (Demo.world (Demo.ok "10.5.1.0-24")) Demo.m "foo" (Some "attrs")
  = ((Some "10.5.1.0-24", None),
     [Do {| Method := "POST"; URL := "http://10.0.0.1:8888/v1/foo/leases";
            Header := [("Content-Type", "application/json")];
            ReqBody := Some "attrs" |};
      ReadBody; CloseBody]).
Proof. reflexivity. Qed.

Example RenewLease_ok :
  let r := RenewLease (Demo.world (Demo.ok "renewed")) Demo.m "foo" 1
             (Demo.heap1 "10.5.1.0-24") in
  effects r
  = [Do {| Method := "PUT";
           URL := "http://10.0.0.1:8888/v1/foo/leases/10.5.1.0-24";
           Header := [("Content-Type", "application/json")];
           ReqBody := Some "10.5.1.0-24" |};
     ReadBody; CloseBody]
  /\ match value r with
     | Some (h', None) => h' 1 = Some "renewed" /\ h' 2 = None
     | _ => False
     end.
Proof. split; [reflexivity | split; reflexivity]. Qed.

Example RenewLease_not_found :
  RenewLease (Demo.world Demo.not_found) Demo.m "foo" 1
    (Demo.heap1 "10.5.1.0-24")
  = (Some (Demo.heap1 "10.5.1.0-24",
           Some (Errorf "404 Not Found: no such network")),
     [Do {| Method := "PUT";
            URL := "http://10.0.0.1:8888/v1/foo/leases/10.5.1.0-24";
            Header := [("Content-Type", "application/json")];
            ReqBody := Some "10.5.1.0-24" |};
      ReadBody; CloseBody]).
Proof. reflexivity. Qed.

Example RenewLease_nil :
  RenewLease (Demo.world (Demo.ok "renewed")) Demo.m "foo" 0
    (Demo.heap1 "10.5.1.0-24")
  = (None, []).
Proof. reflexivity. Qed.

Example WatchLeases_ok :
  WatchLeases (Demo.world (Demo.ok "cursor=xyz")) Demo.m "foo"
    (Istring "abc123")
  = (({| Data := "cursor=xyz"; Cursor := Istring "xyz" |}, None),
     [Do {| Method := "GET";
            URL := "http://10.0.0.1:8888/v1/foo/leases?next=abc123";
            Header := []; ReqBody := None |};
      ReadBody]).
Proof. reflexivity. Qed.

Example WatchLeases_number_cursor :
  WatchLeases (Demo.world (Demo.ok "42")) Demo.m "foo" Inil
  = (({| Data := EmptyString; Cursor := Inil |},
      Some (Errorf "lease watch returned non-string cursor")),
     [Do {| Method := "GET"; URL := "http://10.0.0.1:8888/v1/foo/leases";
            Header := []; ReqBody := None |};
      ReadBody]).
Proof. reflexivity. Qed.

Example GetNetworkConfig_broken_body :
  GetNetworkConfig (Demo.world Demo.broken_body) Demo.m "foo"
  = ((None, Some (Foreign "net" "connection reset")),
     [Do {| Method := "GET"; URL := "http://10.0.0.1:8888/v1/foo/config";
            Header := []; ReqBody := None |};
      ReadBody; CloseBody]).
Proof. reflexivity. Qed.

Example GetNetworkConfig_unreachable :
  GetNetworkConfig (Demo.world Demo.unreachable) Demo.m "foo"
  = ((None, Some (Foreign "net" "connection refused")),
     [Do {| Method := "GET"; URL := "http://10.0.0.1:8888/v1/foo/config";
            Header := []; ReqBody := None |}]).
Proof. reflexivity. Qed.

End Runs.

(** ** The cancellable executor *)

Module ExecutorFacts.

Import Client Executor.

Lemma run_app (a b : list label) (s : state) :
  run (a ++ b)%list s
  = match run a s with
    | Some s' => run b s'
    | None => None
    end.
Proof.
  revert s. induction a as [|l a IH]; intro s; [reflexivity|].
  simpl. destruct (step l s); [apply IH | reflexivity].
Qed.

Lemma Inv_init (c : option error) : Inv (init c).
Proof. repeat split. Qed.

Ltac step_cases l s H :=
  destruct s as [pc g ch cx cr]; unfold step in H; simpl in H;
  destruct l, pc, g, ch, cx; try discriminate H;
  injection H as <-.

Lemma Inv_step (l : label) (s s' : state) :
  Inv s -> step l s = Some s' -> Inv s'.
Proof.
  intros HI H. step_cases l s H.
  all: unfold Inv, goroutine_chan, finished in *; simpl in *.
  all: try solve [intuition (try discriminate; try congruence; eauto)].
  all: try solve [destruct cr; intuition (try discriminate; try congruence; eauto)].
  all: destruct cr;
    repeat match goal with
      | H : _ /\ _ |- _ => destruct H
      | H : exists _, _ |- _ => destruct H
      end;
    try discriminate; intuition eauto.
Qed.

Lemma Inv_run (sched : list label) :
  forall s s', Inv s -> run sched s = Some s' -> Inv s'.
Proof.
  induction sched as [|l sched IH]; intros s s' HI H; simpl in H.
  - injection H as <-. exact HI.
  - destruct (step l s) as [s1|] eqn:Hs; [|discriminate].
    apply (IH s1); [apply (Inv_step l s); assumption | exact H].
Qed.

Lemma on_cancel_path_step (l : label) (s s' : state) :
  on_cancel_path s -> step l s = Some s' -> on_cancel_path s'.
Proof.
  intros HP H. step_cases l s H.
  all: unfold on_cancel_path in *; simpl in *; try exact I; try contradiction;
    try assumption; try reflexivity.
Qed.

Lemma on_cancel_path_run (sched : list label) :
  forall s s', on_cancel_path s -> run sched s = Some s' -> on_cancel_path s'.
Proof.
  induction sched as [|l sched IH]; intros s s' HP H; simpl in H.
  - injection H as <-. exact HP.
  - destruct (step l s) as [s1|] eqn:Hs; [|discriminate].
    apply (IH s1); [apply (on_cancel_path_step l s); assumption | exact H].
Qed.

(** With the context done and nothing on the channel, [select] can only
    take the case [<-ctx.Done()]. *)
Lemma select_done_only (l : label) (s s' : state) :
  is_select l = true -> ctx s <> None -> chan s = None ->
  step l s = Some s' -> on_cancel_path s'.
Proof.
  intros Hl Hc Hch H. step_cases l s H; simpl in *;
    try discriminate; try congruence; exact I.
Qed.

(** From every state of a run, [httpDo] has a way to return. *)
Lemma way_out_returns (s : state) :
  Inv s -> exists s' r, run (way_out s) s = Some s' /\ returned s' = Some r.
Proof.
  intro HI. destruct s as [pc g ch cx cr].
  unfold Inv, goroutine_chan, finished in HI; simpl in HI.
  destruct pc, g; simpl in HI; try solve [intuition discriminate].
  all: repeat match goal with H : _ /\ _ |- _ => destruct H end; subst.
  all: try (destruct cx as [e|]; [|congruence]).
  all: unfold way_out, let_finish; simpl; unfold step; simpl.
  all: do 2 eexists; split; reflexivity.
Qed.

(** Two interleavings: the transport answers first; the context is
    cancelled while the transport call is under way. *)
Example run_answered :
  option_map returned
    (run [Go; DoReturns answer200; ChanSend; SelectRecv] (init None))
  = Some (Some answer200).
Proof. reflexivity. Qed.

Example run_cancelled :
  option_map (fun s => (returned s, finished s, chan s, cancelRequested s))
    (run [Go; CtxDone Canceled; SelectDone; CancelRequest; DoReturns aborted;
          ChanSend; Drain; ReturnCtxErr] (init None))
  = Some (Some {| resp := None; err := Some Canceled |}, true, None, true).
Proof. reflexivity. Qed.

(** C1, as stated, fails: the context is done before the transport call
    completes, the goroutine sends its result before [httpDo] reaches its
    [select], both cases are ready and [select] takes the receive. *)
Lemma httpDo_done_first_may_return_result :
  done_before_completion late_select = true
  /\ option_map (fun s => (returned s, ctx s)) (run late_select (init None))
     = Some (Some answer200, Some Canceled)
  /\ ~ (forall (c : option error) (sched : list label) (s : state)
               (r : httpRespErr),
          run sched (init c) = Some s ->
          c <> None \/ done_before_completion sched = true ->
          returned s = Some r ->
          r = {| resp := None; err := ctx s |}
          /\ finished s = true /\ chan s = None).
Proof.
  split; [reflexivity|].
  split; [reflexivity|].
  intro H.
  destruct (H None late_select _ answer200 eq_refl (or_intror eq_refl) eq_refl)
    as [Hr _].
  discriminate Hr.
Qed.

(** At its [select] with the context done, [httpDo] can take the case
    [<-ctx.Done()], and from there it returns the error of the context. *)
Lemma select_done_returns_ctx_err (s : state) (e : error) :
  Inv s -> main s = AtSelect -> ctx s = Some e ->
  exists s',
    run (SelectDone :: cancellation s) s = Some s'
    /\ returned s' = Some {| resp := None; err := Some e |}
    /\ cancelRequested s' = true
    /\ finished s' = true
    /\ chan s' = None.
Proof.
  intros HI Hm He. destruct s as [pc g ch cx cr].
  simpl in Hm, He. subst pc cx.
  unfold Inv, goroutine_chan in HI. simpl in HI.
  destruct HI as [_ HI].
  destruct g; try contradiction; simpl in HI; subst ch.
  all: eexists; unfold cancellation, let_finish; simpl; unfold step; simpl.
  all: repeat split.
Qed.

(** At its [select] with the result on the channel, [httpDo] can take
    the receive, and returns that result. *)
Lemma select_recv_returns_result (s : state) (r : httpRespErr) :
  Inv s -> main s = AtSelect -> chan s = Some r ->
  exists s',
    step SelectRecv s = Some s'
    /\ returned s' = Some r
    /\ cancelRequested s' = false
    /\ finished s' = true
    /\ chan s' = None.
Proof.
  intros HI Hm Hr. destruct s as [pc g ch cx cr].
  simpl in Hm, Hr. subst pc ch.
  unfold Inv, goroutine_chan in HI. simpl in HI.
  destruct HI as [Hcr HI]. subst cr.
  destruct g; try contradiction; try discriminate HI.
  eexists. unfold step. simpl. repeat split.
Qed.

(** C1, amended.  In every interleaving of [httpDo], its goroutine, the
    context and the transport: [httpDo] has a way to return; and when it
    has returned, the goroutine has finished and its result has been taken
    from the channel, and [httpDo] returned either the result of the
    transport call, without asking for its cancellation, or, after
    [tr.CancelRequest], a nil response and [ctx.Err()]; the latter is what
    happens whenever, at the [select], the context is done and the result
    of the goroutine is not yet on the channel.  At the [select], the case
    [<-ctx.Done()] can be taken as soon as the context is done, and leads
    to the return of a nil response and [ctx.Err()] with the goroutine
    finished and the channel drained; the receive can be taken as soon as
    the result is on the channel, and returns that result: with both
    ready, either outcome may be returned. *)
Theorem httpDo_cancellation (c : option error) (sched : list label)
    (s : state) :
  run sched (init c) = Some s ->
  (exists more s' r, run more s = Some s' /\ returned s' = Some r)
  /\ (forall r,
       returned s = Some r ->
       finished s = true
       /\ chan s = None
       /\ (if cancelRequested s
           then exists e,
                  ctx s = Some e /\ r = {| resp := None; err := Some e |}
           else goroutine s = Finished r)
       /\ (forall before l after s0,
             sched = (before ++ l :: after)%list ->
             run before (init c) = Some s0 ->
             is_select l = true ->
             ctx s0 <> None ->
             chan s0 = None ->
             cancelRequested s = true
             /\ exists e,
                  ctx s = Some e /\ r = {| resp := None; err := Some e |}))
  /\ (forall e,
       main s = AtSelect ->
       ctx s = Some e ->
       step SelectDone s = Some (set_main s AtCancelRequest)
       /\ exists s',
            run (SelectDone :: cancellation s) s = Some s'
            /\ returned s' = Some {| resp := None; err := Some e |}
            /\ cancelRequested s' = true
            /\ finished s' = true
            /\ chan s' = None)
  /\ (forall r,
       main s = AtSelect ->
       chan s = Some r ->
       exists s',
         step SelectRecv s = Some s'
         /\ returned s' = Some r
         /\ cancelRequested s' = false
         /\ finished s' = true
         /\ chan s' = None)
  /\ (main s = AtSelect ->
      ctx s = None ->
      chan s = None ->
      step SelectDone s = None /\ step SelectRecv s = None).
Proof.
  intro Hrun.
  assert (HI : Inv s) by (apply (Inv_run sched (init c)); [apply Inv_init | exact Hrun]).
  split; [|split; [|split; [|split]]].
  - destruct (way_out_returns s HI) as [s' [r H]].
    exists (way_out s), s', r. exact H.
  - intros r Hr.
    unfold returned in Hr. unfold Inv in HI.
    destruct (main s) eqn:Hm; try discriminate Hr.
    injection Hr as ->.
    destruct HI as [Hf [Hch Hres]].
    split; [exact Hf|]. split; [exact Hch|]. split; [exact Hres|].
    intros before l after s0 Hsched Hbefore Hl Hc Hempty.
    subst sched. rewrite run_app, Hbefore in Hrun.
    simpl in Hrun.
    destruct (step l s0) as [s1|] eqn:Hstep; [|discriminate].
    pose proof (select_done_only l s0 s1 Hl Hc Hempty Hstep) as Hpath.
    pose proof (on_cancel_path_run after s1 s Hpath Hrun) as Hend.
    unfold on_cancel_path in Hend. rewrite Hm in Hend.
    rewrite Hend in Hres. split; [exact Hend | exact Hres].
  - intros e Hm He. split.
    + unfold step. rewrite Hm, He. reflexivity.
    + exact (select_done_returns_ctx_err s e HI Hm He).
  - intros r Hm Hr. exact (select_recv_returns_result s r HI Hm Hr).
  - intros Hm Hc Hch. unfold step. rewrite Hm, Hc, Hch. split; reflexivity.
Qed.

Lemma httpDo_cancellation_witness :
  (exists s,
     run cancelled_run (init None) = Some s
     /\ returned s = Some {| resp := None; err := Some Canceled |}
     /\ finished s = true
     /\ chan s = None
     /\ cancelRequested s = true)
  /\ (exists s,
       run both_ready (init None) = Some s
       /\ (exists s',
             run (SelectDone :: cancellation s) s = Some s'
             /\ returned s' = Some {| resp := None; err := Some Canceled |})
       /\ (exists s',
             step SelectRecv s = Some s' /\ returned s' = Some answer200)).
Proof.
  split.
  - eexists. split; [reflexivity|].
    split; [reflexivity|].
    destruct (proj1 (proj2 (httpDo_cancellation None cancelled_run _ eq_refl))
                {| resp := None; err := Some Canceled |} eq_refl)
      as [Hf [Hch [_ Hsel]]].
    split; [exact Hf|]. split; [exact Hch|].
    refine (proj1 (Hsel [Go; CtxDone Canceled] SelectDone
                     [CancelRequest; DoReturns aborted; ChanSend; Drain;
                      ReturnCtxErr]
                     _ eq_refl eq_refl eq_refl _ eq_refl)).
    discriminate.
  - eexists. split; [reflexivity|].
    destruct (httpDo_cancellation None both_ready _ eq_refl)
      as [_ [_ [Hdone [Hrecv _]]]].
    split.
    + destruct (Hdone Canceled eq_refl eq_refl) as [_ [s' [Hr [Hv _]]]].
      exists s'. split; [exact Hr | exact Hv].
    + destruct (Hrecv answer200 eq_refl eq_refl) as [s' [Hs [Hv _]]].
      exists s'. split; [exact Hs | exact Hv].
Defined.

End ExecutorFacts.

(** ** More on the lease protocol client *)

Module ProtocolMore.

Import Client Protocol.

Section Facts.

Variable W : World.

(** X1.  One operation is at most one request, with no retry; the body of the
    response is read once, and closed after that read by every operation
    but [WatchLeases]; nothing is read or closed when the executor
    returned an error. *)
Theorem one_request_per_operation (m : RemoteManager) (network : string)
    (attrs : option (LeaseAttrs W)) (lease : ptr) (h : heap W)
    (cursor : iface) :
  one_attempt W true (effects (GetNetworkConfig W m network))
  /\ one_attempt W true (effects (AcquireLease W m network attrs))
  /\ one_attempt W true (effects (RenewLease W m network lease h))
  /\ one_attempt W false (effects (WatchLeases W m network cursor)).
Proof.
  unfold one_attempt.
  repeat split.
  all: unfold_ops; split_on_answers; close_case.
  all: try solve [left; reflexivity].
  all: try solve [right; left; do 2 eexists; split; [eassumption | reflexivity]].
  all: right; right; do 2 eexists; split; [eassumption | reflexivity].
Qed.

(** X2.  An error of the executor (transport failure, cancellation) is
    returned as it is by each operation, with no decoded result, and the
    request is the only effect. *)
Theorem executor_error_verbatim (m : RemoteManager) (network : string)
    (attrs : option (LeaseAttrs W)) (lease : ptr) (h : heap W)
    (cursor : iface) (e : error) :
  (failed W (effects (GetNetworkConfig W m network)) e ->
   exists req, GetNetworkConfig W m network = ((None, Some e), [Do req]))
  /\ (failed W (effects (AcquireLease W m network attrs)) e ->
      exists req,
        AcquireLease W m network attrs = ((None, Some e), [Do req]))
  /\ (failed W (effects (RenewLease W m network lease h)) e ->
      exists req,
        RenewLease W m network lease h = (Some (h, Some e), [Do req]))
  /\ (failed W (effects (WatchLeases W m network cursor)) e ->
      exists req,
        WatchLeases W m network cursor
        = ((zeroWatchResult W, Some e), [Do req])).
Proof.
  repeat split; intros [req [Hin Hrt]].
  all: unfold_ops; split_on_answers; close_case.
  all: match goal with
       | H1 : roundtrip _ ?r = _, H2 : roundtrip _ ?r = _ |- _ =>
           rewrite H1 in H2; injection H2 as <-
       end.
  all: eexists; reflexivity.
Qed.

(** X3.  A response with status 200 whose body does not decode gives the
    error of the decoder and no result. *)
Theorem decode_error_reported (m : RemoteManager) (network : string)
    (attrs : option (LeaseAttrs W)) (cursor : iface) (resp : Response)
    (e : error) :
  StatusCode resp = 200%Z ->
  (answered W (effects (GetNetworkConfig W m network)) resp ->
   Decode_Config W (Body resp) = inr e ->
   value (GetNetworkConfig W m network) = (None, Some e))
  /\ (answered W (effects (AcquireLease W m network attrs)) resp ->
      Decode_Lease W (Body resp) = inr e ->
      value (AcquireLease W m network attrs) = (None, Some e))
  /\ (answered W (effects (WatchLeases W m network cursor)) resp ->
      Decode_WatchResult W (Body resp) = inr e ->
      value (WatchLeases W m network cursor) = (zeroWatchResult W, Some e)).
Proof.
  intro Hcode.
  repeat split; intros [req [Hin Hrt]] Hdec.
  all: unfold_ops; split_on_answers; close_case.
Qed.

(** X4.  A response with status 200 whose body decodes gives the decoded
    record and no error; for [WatchLeases], when the decoded cursor is a
    string, the decoded result as it is. *)
Theorem success_returns_decoded (m : RemoteManager) (network : string)
    (attrs : option (LeaseAttrs W)) (cursor : iface) (resp : Response) :
  StatusCode resp = 200%Z ->
  (forall config,
     answered W (effects (GetNetworkConfig W m network)) resp ->
     Decode_Config W (Body resp) = inl config ->
     value (GetNetworkConfig W m network) = (Some config, None))
  /\ (forall newLease,
       answered W (effects (AcquireLease W m network attrs)) resp ->
       Decode_Lease W (Body resp) = inl newLease ->
       value (AcquireLease W m network attrs) = (Some newLease, None))
  /\ (forall wr,
       answered W (effects (WatchLeases W m network cursor)) resp ->
       Decode_WatchResult W (Body resp) = inl wr ->
       is_string (Cursor wr) = true ->
       value (WatchLeases W m network cursor) = (wr, None)).
Proof.
  intro Hcode.
  repeat split.
  1: intros config [req [Hin Hrt]] Hdec.
  2: intros newLease [req [Hin Hrt]] Hdec.
  3: intros wr [req [Hin Hrt]] Hdec Hstr.
  all: unfold_ops; split_on_answers; close_case.
Qed.

(** X5.  What fails before the network leaves no effect: a record that does
    not serialize and a request that [http.NewRequest] refuses give their
    error, and nothing is sent. *)
Theorem no_request_on_construction_failure (m : RemoteManager)
    (network : string) (attrs : option (LeaseAttrs W)) (lease : ptr)
    (h : heap W) (c : string) (e : error) :
  (Marshal_LeaseAttrs W attrs = inr e ->
   AcquireLease W m network attrs = ((None, Some e), []))
  /\ (forall l, h lease = Some l -> Marshal_Lease W l = inr e ->
      RenewLease W m network lease h = (Some (h, Some e), []))
  /\ (NewRequest_err W "GET" (mkurl m network ["config"]) = Some e ->
      GetNetworkConfig W m network = ((None, Some e), []))
  /\ (forall body,
        Marshal_LeaseAttrs W attrs = inl body ->
        NewRequest_err W "POST" (mkurl m network ["leases/"]) = Some e ->
        AcquireLease W m network attrs = ((None, Some e), []))
  /\ (forall l body,
        h lease = Some l -> Marshal_Lease W l = inl body ->
        NewRequest_err W "PUT" (mkurl m network ["leases"; Key W l]) = Some e ->
        RenewLease W m network lease h = (Some (h, Some e), []))
  /\ (NewRequest_err W "GET" (mkurl m network ["leases"]) = Some e ->
      WatchLeases W m network Inil = ((zeroWatchResult W, Some e), []))
  /\ (NewRequest_err W "GET" (mkurl m network ["leases"] ++ "?next=" ++ c)
        = Some e ->
      WatchLeases W m network (Istring c)
      = ((zeroWatchResult W, Some e), [])).
Proof.
  repeat split.
  - intro He. unfold_ops. rewrite He. reflexivity.
  - intros l Hl He. unfold_ops. rewrite Hl, He. reflexivity.
  - intro Hreq. unfold_ops. rewrite Hreq. reflexivity.
  - intros body Hb Hreq. unfold_ops. rewrite Hb, Hreq. reflexivity.
  - intros l body Hl Hb Hreq. unfold_ops. rewrite Hl, Hb, Hreq. reflexivity.
  - intro Hreq. unfold_ops. rewrite Hreq. reflexivity.
  - intro Hreq. unfold_ops. rewrite Hreq. reflexivity.
Qed.


(** X7.  The cursor of a successful watch can be handed back: when
    [WatchLeases] returns no error, the cursor of its result is a string
    [c], and the next [WatchLeases] with that cursor asks for
    [{network}/leases?next=c] rather than rejecting it. *)
Theorem watch_cursor_feeds_next_watch (m : RemoteManager)
    (network network' : string) (cursor : iface)
    (wr : WatchResult (WatchData W)) :
  value (WatchLeases W m network cursor) = (wr, None) ->
  exists c,
    Cursor wr = Istring c
    /\ match NewRequest_err W "GET"
               (mkurl m network' ["leases"] ++ "?next=" ++ c) with
       | Some e =>
           WatchLeases W m network' (Cursor wr)
           = ((zeroWatchResult W, Some e), [])
       | None =>
           exists rest,
             effects (WatchLeases W m network' (Cursor wr))
             = Do {| Method := "GET";
                     URL := mkurl m network' ["leases"] ++ "?next=" ++ c;
                     Header := []; ReqBody := None |} :: rest
       end.
Proof.
  intro Hv.
  assert (Hstr : is_string (Cursor wr) = true).
  { revert Hv. unfold_ops; split_on_answers; close_case. }
  destruct (Cursor wr) as [|c| | | | |] eqn:Hc; try discriminate Hstr.
  exists c. split; [reflexivity|].
  unfold WatchLeases, httpGet, NewRequest.
  destruct (NewRequest_err W "GET" _) as [e|]; [reflexivity|].
  unfold httpDo, effects, bind, emit, ret. cbn.
  destruct (roundtrip W _) as [r|e]; cbn.
  - destruct (negb _); cbn.
    + unfold httpError, bind, emit, ret, ReadAll.
      destruct (failure (Body r)); cbn; eexists; reflexivity.
    + unfold Decode, bind, emit, ret. cbn.
      destruct (Decode_WatchResult W (Body r)) as [w|e]; cbn;
        [destruct (negb _); cbn|]; eexists; reflexivity.
  - eexists. reflexivity.
Qed.

End Facts.

End ProtocolMore.

(** ** The shape of a cleaned rooted path *)

Module PathShape.

Import Path.

Lemma no_adjacent_cons (c1 c2 : ascii) (t : list ascii) :
  no_adjacent_slashes (c1 :: c2 :: t)
  = negb (is_slash c1 && is_slash c2) && no_adjacent_slashes (c2 :: t).
Proof. reflexivity. Qed.

Lemma no_adjacent_tail (c : ascii) (l : list ascii) :
  no_adjacent_slashes (c :: l) = true -> no_adjacent_slashes l = true.
Proof.
  destruct l as [|c2 t]; [reflexivity|].
  rewrite no_adjacent_cons. intro H.
  apply andb_true_iff in H. apply H.
Qed.

Lemma no_adjacent_push (c : ascii) (l : list ascii) :
  is_slash c = false ->
  no_adjacent_slashes l = true -> no_adjacent_slashes (c :: l) = true.
Proof.
  intros Hc Hl. destruct l as [|c2 t]; [reflexivity|].
  rewrite no_adjacent_cons, Hc, Hl. reflexivity.
Qed.

Lemma no_adjacent_push_slash (l : list ascii) :
  top_not_slash l = true ->
  no_adjacent_slashes l = true ->
  no_adjacent_slashes ("/"%char :: l) = true.
Proof.
  intros Ht Hl. destruct l as [|c2 t]; [reflexivity|].
  rewrite no_adjacent_cons, Hl. simpl in Ht.
  apply negb_true_iff in Ht. rewrite Ht, andb_false_r. reflexivity.
Qed.

(** [backtrack] on a rooted buffer removes the last element and stops at
    the latest on the leading separator. *)
Lemma backtrack_rooted (u : list ascii) :
  u <> [] ->
  no_adjacent_slashes (u ++ ["/"%char])%list = true ->
  exists u',
    backtrack (u ++ ["/"%char])%list 1 = (u' ++ ["/"%char])%list
    /\ no_adjacent_slashes (u' ++ ["/"%char])%list = true
    /\ top_not_slash u' = true.
Proof.
  induction u as [|c t IH]; intros Hne Hadj; [contradiction|].
  cbn [app backtrack].
  destruct t as [|c2 t'].
  - exists []. repeat split.
  - assert (Hlen : (1 <? List.length ((c2 :: t') ++ ["/"%char])%list)%nat = true).
    { apply Nat.ltb_lt. simpl. rewrite length_app. simpl. lia. }
    rewrite Hlen. cbn [andb].
    pose proof (no_adjacent_tail _ _ Hadj) as Htail.
    destruct (is_slash c) eqn:Hc; cbn [negb].
    + exists (c2 :: t'). repeat split; [exact Htail|].
      cbn [app] in Hadj. rewrite no_adjacent_cons, Hc in Hadj.
      simpl. destruct (is_slash c2); [discriminate Hadj | reflexivity].
    + apply IH; [discriminate | exact Htail].
Qed.

(** [copy_elem] pushes bytes that are not separators, at least one when
    the path starts with such a byte. *)
Lemma copy_elem_rooted (path : bytes) :
  forall out : lazybuf,
    no_adjacent_slashes out = true ->
    exists e,
      snd (copy_elem path out) = (e ++ out)%list
      /\ no_adjacent_slashes (e ++ out)%list = true
      /\ top_not_slash e = true
      /\ (forall c rest, path = c :: rest -> is_slash c = false -> e <> []).
Proof.
  induction path as [|c rest IH]; intros out Hadj.
  - exists []. repeat split; [exact Hadj | discriminate].
  - cbn [copy_elem]. destruct (is_slash c) eqn:Hc.
    + exists []. repeat split; [exact Hadj|].
      intros c0 rest0 Heq Hc0. injection Heq as <- <-. congruence.
    + destruct (IH (c :: out) (no_adjacent_push c out Hc Hadj))
        as [e [He [Hadj' [Htop _]]]].
      exists (e ++ [c])%list. rewrite <- app_assoc. cbn [app].
      split; [exact He|]. split; [exact Hadj'|]. split.
      * destruct e as [|c0 e]; [simpl; rewrite Hc; reflexivity | exact Htop].
      * intros c0 rest0 _ _. destruct e; discriminate.
Qed.

(** The loop of [Clean] keeps the buffer of a rooted path in shape. *)
Lemma clean_loop_rooted (fuel : nat) :
  forall (path : bytes) (out : lazybuf),
    rooted_buffer out ->
    rooted_buffer (clean_loop fuel true path out 1).
Proof.
  induction fuel as [|fuel IH]; intros path out Hout; [exact Hout|].
  destruct path as [|c rest]; [exact Hout|].
  cbn [clean_loop].
  destruct (is_slash c) eqn:Hc; [apply IH; exact Hout|].
  destruct (is_dot c && ends_elem rest); [apply IH; exact Hout|].
  destruct (is_dot c && _).
  - destruct (1 <? List.length out)%nat eqn:Hlen; [|apply IH; exact Hout].
    apply IH.
    destruct Hout as [u [-> [Hadj Htop]]].
    assert (Hu : u <> []).
    { intros ->. simpl in Hlen. discriminate Hlen. }
    destruct (backtrack_rooted u Hu Hadj) as [u' [Hb [Hadj' Htop']]].
    exists u'. rewrite Hb. repeat split; assumption.
  - cbn [andb negb orb]. rewrite orb_false_r.
    destruct Hout as [u [-> [Hadj Htop]]].
    set (out1 := if negb (List.length (u ++ ["/"%char])%list =? 1)%nat
                 then "/"%char :: (u ++ ["/"%char])%list
                 else (u ++ ["/"%char])%list).
    assert (H1 : exists u1,
              out1 = (u1 ++ ["/"%char])%list
              /\ no_adjacent_slashes out1 = true).
    { subst out1. destruct u as [|c0 u0].
      - exists []. split; reflexivity.
      - assert (Hl : (List.length ((c0 :: u0) ++ ["/"%char])%list =? 1)%nat
                     = false).
        { apply Nat.eqb_neq. simpl. rewrite length_app. simpl. lia. }
        rewrite Hl. cbn [negb].
        exists ("/"%char :: c0 :: u0). split; [reflexivity|].
        apply no_adjacent_push_slash; [exact Htop | exact Hadj]. }
    destruct H1 as [u1 [Hout1 Hadj1]].
    destruct (copy_elem_rooted (c :: rest) out1 Hadj1)
      as [e [He [Hadj2 [Htop2 Hne]]]].
    destruct (copy_elem (c :: rest) out1) as [rest' out2].
    simpl in He. subst out2.
    apply IH.
    exists (e ++ u1)%list. rewrite Hout1 in *. rewrite app_assoc.
    repeat split; [rewrite <- app_assoc; exact Hadj2|].
    specialize (Hne c rest eq_refl Hc).
    destruct e as [|c0 e]; [contradiction | exact Htop2].
Qed.

Lemma rooted_buffer_root : rooted_buffer ["/"%char].
Proof. exists []. repeat split. Qed.

(** A buffer without adjacent separators does not split around two of
    them, whichever way it is read. *)
Lemma no_adjacent_split (a : list ascii) :
  forall l b,
    no_adjacent_slashes l = true ->
    l <> (a ++ "/"%char :: "/"%char :: b)%list.
Proof.
  induction a as [|x a IH]; intros l b Hadj Heq; subst l.
  - discriminate Hadj.
  - apply (IH _ b (no_adjacent_tail _ _ Hadj)). reflexivity.
Qed.

Lemma get_string_of_list_ascii (l : list ascii) :
  forall i, String.get i (string_of_list_ascii l) = nth_error l i.
Proof.
  induction l as [|c l IH]; intro i; destruct i; simpl; auto.
Qed.

Lemma length_string_of_list_ascii (l : list ascii) :
  String.length (string_of_list_ascii l) = List.length l.
Proof. induction l as [|c l IH]; simpl; auto. Qed.

(** The shape of a buffer, read from the bottom: it starts with the
    separator, has no two separators in a row and ends with one only
    when it is the separator alone. *)
Lemma rooted_buffer_shape (out : lazybuf) :
  rooted_buffer out ->
  let p := string_of_list_ascii (rev out) in
  String.get 0 p = Some "/"%char
  /\ (forall i, String.get i p = Some "/"%char ->
                String.get (S i) p <> Some "/"%char)
  /\ (p = "/" \/ String.get (String.length p - 1) p <> Some "/"%char).
Proof.
  intros [u [-> [Hadj Htop]]] p. subst p.
  rewrite rev_app_distr. cbn [rev app].
  split; [reflexivity|]. split.
  - intros i Hi Hsi.
    rewrite get_string_of_list_ascii in Hi, Hsi.
    destruct (nth_error_split _ _ Hi) as [l1 [l2 [Heq Hlen]]].
    rewrite Heq in Hsi. subst i.
    rewrite nth_error_app2 in Hsi by lia.
    replace (S (List.length l1) - List.length l1) with 1 in Hsi by lia.
    destruct l2 as [|c2 l2]; [discriminate Hsi|].
    simpl in Hsi. injection Hsi as ->.
    assert (Hrev : (u ++ ["/"%char])%list
                   = (rev l2 ++ "/"%char :: "/"%char :: rev l1)%list).
    { replace (u ++ ["/"%char])%list with (rev ("/"%char :: rev u))
        by (cbn [rev]; rewrite rev_involutive; reflexivity).
      rewrite Heq, rev_app_distr. cbn [rev].
      rewrite <- !app_assoc. reflexivity. }
    exact (no_adjacent_split _ _ _ Hadj Hrev).
  - destruct u as [|c0 u0]; [left; reflexivity|].
    right. rewrite get_string_of_list_ascii.
    cbn [string_of_list_ascii String.length].
    rewrite length_string_of_list_ascii.
    cbn [rev].
    replace (S (List.length (rev u0 ++ [c0])%list) - 1)
      with (S (List.length (rev u0)))
      by (rewrite length_app; simpl; lia).
    cbn [nth_error].
    rewrite nth_error_app2 by lia. rewrite Nat.sub_diag. simpl.
    simpl in Htop. apply negb_true_iff in Htop.
    intro H. injection H as ->. discriminate Htop.
Qed.

(** [Clean] of a rooted path. *)
Lemma Clean_rooted (c : ascii) (rest : string) :
  is_slash c = true ->
  exists out,
    rooted_buffer out
    /\ Clean (String c rest) = string_of_list_ascii (rev out).
Proof.
  intro Hc. unfold Clean. cbn [list_ascii_of_string]. rewrite Hc.
  set (out := clean_loop _ true _ _ 1).
  assert (Hout : rooted_buffer out)
    by (apply clean_loop_rooted, rooted_buffer_root).
  exists out. split; [exact Hout|].
  destruct Hout as [u [Hu _]].
  assert (Hlen : (List.length out =? 0)%nat = false).
  { apply Nat.eqb_neq. rewrite Hu, length_app. simpl. lia. }
  rewrite Hlen. reflexivity.
Qed.

End PathShape.

(** ** More on resource addressing *)

Module AddressingMore.

Import Client.

Lemma normalize_rooted (network : string) :
  exists r, normalize network = String "/" r.
Proof.
  destruct network as [|c rest]; [eexists; reflexivity|].
  unfold normalize. destruct (Ascii.eqb_spec c "/") as [->|_];
    eexists; reflexivity.
Qed.

Lemma strings_Join_rooted (r : string) (parts : list string) :
  exists r', Path.strings_Join (String "/" r :: parts) "/" = String "/" r'.
Proof.
  unfold Path.strings_Join. cbn [String.concat].
  destruct parts; eexists; reflexivity.
Qed.

(** X8.  Every address [mkurl] builds is the base followed by a path that
    starts with the separator, has no two separators in a row and does not
    end with one, unless it is the separator alone. *)
Theorem mkurl_well_formed (m : RemoteManager) (network : string)
    (parts : list string) :
  exists p,
    mkurl m network parts = base m ++ p
    /\ String.get 0 p = Some "/"%char
    /\ (forall i, String.get i p = Some "/"%char ->
                  String.get (S i) p <> Some "/"%char)
    /\ (p = "/" \/ String.get (String.length p - 1) p <> Some "/"%char).
Proof.
  rewrite Addressing.mkurl_normalize.
  destruct (normalize_rooted network) as [r ->].
  cbn [Path.Join String.eqb Ascii.eqb Bool.eqb].
  destruct (strings_Join_rooted r parts) as [r' ->].
  destruct (PathShape.Clean_rooted "/" r' eq_refl) as [out [Hout ->]].
  eexists. split; [reflexivity|].
  exact (PathShape.rooted_buffer_shape out Hout).
Qed.

Lemma prefix_append (a b : string) : String.prefix a (a ++ b) = true.
Proof.
  induction a as [|c a IH]; [destruct b; reflexivity|].
  simpl. destruct (ascii_dec c c) as [_|Hne]; [exact IH | contradiction].
Qed.

(** X9.  The addresses of a manager made by [NewRemoteManager(listenAddr)] all
    start with [http://listenAddr/v1/]. *)
Theorem NewRemoteManager_addresses (listenAddr network : string)
    (parts : list string) :
  String.prefix ("http://" ++ listenAddr ++ "/v1/")
    (mkurl (NewRemoteManager listenAddr) network parts) = true.
Proof.
  rewrite Addressing.mkurl_normalize.
  destruct (normalize_rooted network) as [r ->].
  cbn [Path.Join String.eqb Ascii.eqb Bool.eqb].
  destruct (strings_Join_rooted r parts) as [r' ->].
  destruct (PathShape.Clean_rooted "/" r' eq_refl) as [out [Hout ->]].
  destruct (PathShape.rooted_buffer_shape out Hout) as [Hroot _].
  destruct (string_of_list_ascii (rev out)) as [|c p'];
    [discriminate Hroot|].
  simpl in Hroot. injection Hroot as ->.
  unfold NewRemoteManager. cbn [base].
  replace (("http://" ++ listenAddr ++ "/v1") ++ String "/" p')
    with (("http://" ++ listenAddr ++ "/v1/") ++ p').
  - apply prefix_append.
  - rewrite !PathFacts.append_assoc. reflexivity.
Qed.

Lemma strings_Join_snoc (parts : list string) :
  forall (first last : string),
    Path.strings_Join (first :: parts ++ [last])%list "/"
    = Path.strings_Join (first :: parts) "/" ++ "/" ++ last.
Proof.
  unfold Path.strings_Join.
  induction parts as [|x parts IH]; intros first last; [reflexivity|].
  change (String.concat "/" (first :: (x :: parts) ++ [last])%list)
    with (first ++ "/" ++ String.concat "/" (x :: parts ++ [last])%list).
  change (String.concat "/" (first :: x :: parts))
    with (first ++ "/" ++ String.concat "/" (x :: parts)).
  rewrite (IH x last).
  rewrite !PathFacts.append_assoc. reflexivity.
Qed.

Lemma mkurl_trailing_separator (m : RemoteManager) (network : string)
    (parts : list string) (last : string) :
  mkurl m network (parts ++ [(last ++ "/")%string])%list
  = mkurl m network (parts ++ [last])%list.
Proof.
  rewrite !Addressing.mkurl_normalize.
  destruct (normalize_rooted network) as [r ->].
  f_equal.
  cbn [Path.Join String.eqb Ascii.eqb Bool.eqb].
  rewrite !strings_Join_snoc.
  rewrite <- !PathFacts.append_assoc.
  apply PathFacts.Clean_trailing_slash.
  destruct (strings_Join_rooted r parts) as [r' ->]. discriminate.
Qed.

Lemma mkurl_empty_last (m : RemoteManager) (network : string)
    (parts : list string) :
  mkurl m network (parts ++ [EmptyString])%list = mkurl m network parts.
Proof.
  rewrite !Addressing.mkurl_normalize.
  destruct (normalize_rooted network) as [r ->].
  f_equal.
  cbn [Path.Join String.eqb Ascii.eqb Bool.eqb].
  rewrite strings_Join_snoc.
  apply PathFacts.Clean_trailing_slash.
  destruct (strings_Join_rooted r parts) as [r' ->]. discriminate.
Qed.

(** X10.  A separator at the end of the last segment is lost, and an empty
    last segment adds nothing: [mkurl] gives the same address without
    them. *)
Theorem mkurl_last_segment (m : RemoteManager) (network : string)
    (parts : list string) (last : string) :
  mkurl m network (parts ++ [(last ++ "/")%string])%list
  = mkurl m network (parts ++ [last])%list
  /\ mkurl m network (parts ++ [EmptyString])%list = mkurl m network parts.
Proof.
  split; [apply mkurl_trailing_separator | apply mkurl_empty_last].
Qed.

Section EmptyKey.

Variable W : World.

(** X11.  A lease whose key is empty is renewed at the address of the leases
    collection: [RenewLease] sends its PUT to [{network}/leases], where
    [AcquireLease] posts and [WatchLeases] reads. *)
Theorem RenewLease_empty_key (m : RemoteManager) (network : string)
    (lease : ptr) (h : heap W) (l : Lease W) (req : Request) :
  h lease = Some l ->
  Key W l = EmptyString ->
  In (Do req) (effects (RenewLease W m network lease h)) ->
  Method req = "PUT"
  /\ URL req = mkurl m network ["leases"]
  /\ URL req = mkurl m network ["leases/"].
Proof.
  intros Hl Hkey Hin.
  assert (Hurl : mkurl m network ["leases"; Key W l]
                 = mkurl m network ["leases"]).
  { rewrite Hkey. apply (mkurl_empty_last m network ["leases"]). }
  pose proof (mkurl_trailing_separator m network [] "leases") as Hslash.
  cbn [app] in Hslash.
  revert Hin.
  Protocol.unfold_ops. rewrite Hl.
  intro Hin.
  Protocol.split_on_answers; Protocol.close_case.
  all: rewrite Hslash, Hurl; repeat split.
Qed.

End EmptyKey.

End AddressingMore.

(** ** More on the cancellable executor *)

Module ExecutorMore.

Import Client Executor.

Lemma reachable_Inv (c : option error) (sched : list label) (s : state) :
  run sched (init c) = Some s -> Inv s.
Proof.
  intro H. apply (ExecutorFacts.Inv_run sched (init c));
    [apply ExecutorFacts.Inv_init | exact H].
Qed.

Ltac step_cases l s H :=
  destruct s as [pc g ch cx cr]; unfold step in H; simpl in H;
  destruct l, pc, g, ch, cx; try discriminate H;
  injection H as <-.

(** X13.  [tr.CancelRequest] is called only on a context that is done: in no
    interleaving is the request cancelled while [ctx.Done()] is open. *)
Theorem cancel_only_when_done (c : option error) (sched : list label)
    (s : state) :
  run sched (init c) = Some s ->
  cancelRequested s = true ->
  ctx s <> None.
Proof.
  intros Hrun Hcr. pose proof (reachable_Inv c sched s Hrun) as HI.
  unfold Inv in HI. destruct (main s).
  1-3: destruct HI as [? ?]; intuition congruence.
  - apply HI.
  - apply HI.
  - destruct HI as [_ [_ HI]]. rewrite Hcr in HI.
    destruct HI as [e [-> _]]. discriminate.
Qed.

(** X14.  The send of the goroutine never blocks: whenever [client.Do] has
    returned, the buffer of the channel is free. *)
Theorem send_never_blocks (c : option error) (sched : list label)
    (s : state) (r : httpRespErr) :
  run sched (init c) = Some s ->
  goroutine s = AtSend r ->
  exists s', step ChanSend s = Some s' /\ goroutine s' = Finished r.
Proof.
  intros Hrun Hg. pose proof (reachable_Inv c sched s Hrun) as HI.
  destruct s as [pc g ch cx cr]. simpl in Hg. subst g.
  unfold Inv, goroutine_chan, finished in HI. simpl in HI.
  assert (Hch : ch = None).
  { destruct pc; simpl in HI; intuition (try discriminate; auto). }
  subst ch. unfold step. simpl.
  destruct pc; eexists; split; reflexivity.
Qed.

Lemma budget_step (l : label) (s s' : state) :
  step l s = Some s' -> budget s' < budget s.
Proof.
  intro H. step_cases l s H; unfold budget; simpl; lia.
Qed.

Lemma budget_run (sched : list label) :
  forall s s', run sched s = Some s' -> List.length sched + budget s' <= budget s.
Proof.
  induction sched as [|l sched IH]; intros s s' H; simpl in H.
  - injection H as <-. simpl. lia.
  - destruct (step l s) as [s1|] eqn:Hs; [|discriminate].
    pose proof (budget_step l s s1 Hs). pose proof (IH s1 s' H).
    simpl. lia.
Qed.

(** X15.  Every interleaving is finite: [httpDo], its goroutine and the
    context take at most eight steps together, seven when the context is
    done at the entry. *)
Theorem at_most_eight_steps (c : option error) (sched : list label)
    (s : state) :
  run sched (init c) = Some s ->
  List.length sched <= match c with None => 8 | Some _ => 7 end.
Proof.
  intro H. pose proof (budget_run sched (init c) s H) as Hb.
  destruct c; unfold budget in Hb; simpl in Hb; lia.
Qed.

(** X16.  No deadlock: as long as [httpDo] has not returned, [httpDo], the
    goroutine or the transport can take a step, whatever the context
    does. *)
Theorem never_stuck (c : option error) (sched : list label) (s : state) :
  run sched (init c) = Some s ->
  returned s = None ->
  exists l s', is_CtxDone l = false /\ step l s = Some s'.
Proof.
  intros Hrun Hret. pose proof (reachable_Inv c sched s Hrun) as HI.
  destruct s as [pc g ch cx cr].
  unfold Inv, goroutine_chan, finished, returned in *. simpl in *.
  destruct pc; try discriminate Hret.
  - destruct HI as [-> [-> _]].
    exists Go. eexists. split; reflexivity.
  - destruct HI as [_ HI]. destruct g; try contradiction; subst.
    + exists (DoReturns aborted). eexists. split; reflexivity.
    + exists ChanSend. eexists. split; reflexivity.
    + exists SelectRecv. eexists. split; reflexivity.
  - exists CancelRequest. eexists. split; reflexivity.
  - destruct HI as [_ [_ HI]]. destruct g; try contradiction; subst.
    + exists (DoReturns aborted). eexists. split; reflexivity.
    + exists ChanSend. eexists. split; reflexivity.
    + exists Drain. eexists. split; reflexivity.
  - exists ReturnCtxErr. eexists. split; reflexivity.
Qed.

(** X17.  Nothing runs after the return: once [httpDo] has returned, the only
    step left is the context becoming done, and it changes neither what
    was returned nor the goroutine nor the channel. *)
Theorem quiet_after_return (c : option error) (sched : list label)
    (s s' : state) (r : httpRespErr) (l : label) :
  run sched (init c) = Some s ->
  returned s = Some r ->
  step l s = Some s' ->
  is_CtxDone l = true
  /\ returned s' = Some r
  /\ goroutine s' = goroutine s
  /\ chan s' = chan s.
Proof.
  intros Hrun Hret Hstep. pose proof (reachable_Inv c sched s Hrun) as HI.
  unfold returned in Hret. unfold Inv, finished in HI.
  step_cases l s Hstep; simpl in *; try discriminate Hret;
    try (destruct HI as [HI _]; discriminate HI).
  all: repeat split; exact Hret.
Qed.

Lemma holds_result_from (sched : list label) :
  forall s0 s r,
    run sched s0 = Some s ->
    holds_result s r ->
    holds_result s0 r \/ In (DoReturns r) sched.
Proof.
  induction sched as [|l sched IH]; intros s0 s r H Hr; simpl in H.
  - injection H as <-. left. exact Hr.
  - destruct (step l s0) as [s1|] eqn:Hs; [|discriminate].
    destruct (IH s1 s r H Hr) as [H1|Hin]; [|right; right; exact Hin].
    unfold holds_result in *.
    step_cases l s0 Hs; simpl in *.
    all: destruct H1 as [H1|H1]; try discriminate H1;
      try (injection H1 as ->).
    all: first [ left; left; reflexivity
               | left; right; reflexivity
               | right; left; reflexivity ].
Qed.

Lemma ctx_from (sched : list label) :
  forall s0 s e,
    run sched s0 = Some s ->
    ctx s = Some e ->
    ctx s0 = Some e \/ In (CtxDone e) sched.
Proof.
  induction sched as [|l sched IH]; intros s0 s e H He; simpl in H.
  - injection H as <-. left. exact He.
  - destruct (step l s0) as [s1|] eqn:Hs; [|discriminate].
    destruct (IH s1 s e H He) as [H1|Hin]; [|right; right; exact Hin].
    step_cases l s0 Hs; simpl in *;
      try solve [left; exact H1]; try discriminate H1.
    all: right; left; injection H1 as ->; reflexivity.
Qed.

(** X18.  Where the returned value comes from: it is a result with which the
    transport call ended, returned without any call of
    [tr.CancelRequest]; or, after [tr.CancelRequest], a nil response with
    the error of the context, the one it had at the entry or the one it
    was given when it became done. *)
Theorem returned_value_origin (c : option error) (sched : list label)
    (s : state) (r : httpRespErr) :
  run sched (init c) = Some s ->
  returned s = Some r ->
  (cancelRequested s = false /\ In (DoReturns r) sched)
  \/ (cancelRequested s = true
      /\ exists e,
           r = {| resp := None; err := Some e |}
           /\ (c = Some e \/ In (CtxDone e) sched)).
Proof.
  intros Hrun Hret. pose proof (reachable_Inv c sched s Hrun) as HI.
  unfold returned in Hret. unfold Inv in HI.
  destruct (main s); try discriminate Hret. injection Hret as ->.
  destruct HI as [_ [_ HI]].
  destruct (cancelRequested s).
  - right. split; [reflexivity|].
    destruct HI as [e [He ->]]. exists e. split; [reflexivity|].
    exact (ctx_from sched (init c) s e Hrun He).
  - left. split; [reflexivity|].
    destruct (holds_result_from sched (init c) s r Hrun (or_intror HI))
      as [[H|H]|H]; [discriminate H | discriminate H | exact H].
Qed.

(** X19.  [httpDo] never returns before [client.Do] has returned: on the
    cancellation path too it waits for the transport call to end, however
    long the transport takes to honour [tr.CancelRequest]. *)
Theorem transport_call_awaited (c : option error) (sched : list label)
    (s : state) (r : httpRespErr) :
  run sched (init c) = Some s ->
  returned s = Some r ->
  exists r0, In (DoReturns r0) sched /\ goroutine s = Finished r0.
Proof.
  intros Hrun Hret. pose proof (reachable_Inv c sched s Hrun) as HI.
  unfold returned in Hret. unfold Inv, finished in HI.
  destruct (main s); try discriminate Hret.
  destruct HI as [Hf _].
  destruct (goroutine s) as [| |r1|r2] eqn:Hg; try discriminate Hf.
  exists r2. split; [|reflexivity].
  destruct (holds_result_from sched (init c) s r2 Hrun (or_intror Hg))
    as [[H|H]|H]; [discriminate H | discriminate H | exact H].
Qed.



(** The theorems at work on the two interleavings of [ExecutorFacts]. *)

Lemma cancel_only_when_done_witness :
  exists s, run cancelled_run (init None) = Some s /\ ctx s <> None.
Proof.
  eexists. split; [reflexivity|].
  apply (cancel_only_when_done None cancelled_run _ eq_refl). reflexivity.
Defined.

Lemma send_never_blocks_witness :
  exists s',
    option_map (step ChanSend) (run [Go; DoReturns answer200] (init None))
    = Some (Some s')
    /\ goroutine s' = Finished answer200.
Proof.
  destruct (send_never_blocks None [Go; DoReturns answer200] _ answer200
              eq_refl eq_refl) as [s' [Hs Hg]].
  exists s'. split; [simpl; rewrite <- Hs; reflexivity | exact Hg].
Defined.

Lemma at_most_eight_steps_witness : List.length cancelled_run <= 8.
Proof.
  exact (at_most_eight_steps None cancelled_run _ eq_refl).
Defined.

Lemma never_stuck_witness :
  exists s l s',
    run [Go; CtxDone Canceled; SelectDone; CancelRequest] (init None) = Some s
    /\ is_CtxDone l = false /\ step l s = Some s'.
Proof.
  destruct (never_stuck None [Go; CtxDone Canceled; SelectDone; CancelRequest]
              _ eq_refl eq_refl) as [l [s' [Hl Hs]]].
  eexists. exists l, s'. split; [reflexivity|]. split; [exact Hl | exact Hs].
Defined.

Lemma quiet_after_return_witness :
  exists s s',
    run [Go; DoReturns answer200; ChanSend; SelectRecv] (init None) = Some s
    /\ step (CtxDone Canceled) s = Some s'
    /\ returned s' = Some answer200.
Proof.
  do 2 eexists. split; [reflexivity|]. split; [reflexivity|].
  apply (quiet_after_return None
           [Go; DoReturns answer200; ChanSend; SelectRecv] _ _ answer200
           (CtxDone Canceled) eq_refl eq_refl eq_refl).
Defined.

Lemma returned_value_origin_witness :
  In (DoReturns answer200) late_select
  \/ exists e,
       answer200 = {| resp := None; err := Some e |}
       /\ (None = Some e \/ In (CtxDone e) late_select).
Proof.
  destruct (returned_value_origin None late_select _ answer200
              eq_refl eq_refl) as [[_ H]|[_ H]].
  - left. exact H.
  - right. exact H.
Defined.

Lemma transport_call_awaited_witness :
  exists r0, In (DoReturns r0) cancelled_run.
Proof.
  destruct (transport_call_awaited None cancelled_run _
              {| resp := None; err := Some Canceled |} eq_refl eq_refl)
    as [r0 [H _]].
  exists r0. exact H.
Defined.

End ExecutorMore.

(** ** The further theorems at work on the concrete worlds *)

Module ClientWitnesses.

Import Client.

Lemma executor_error_verbatim_witness :
  exists req,
    GetNetworkConfig (Demo.world Demo.unreachable) Demo.m "foo"
    = ((None, Some (Foreign "net" "connection refused")), [Do req]).
Proof.
  apply (ProtocolMore.executor_error_verbatim (Demo.world Demo.unreachable)
           Demo.m "foo" None 1 (Demo.heap1 "10.5.1.0-24") Inil
           (Foreign "net" "connection refused")).
  eexists. split; [left; reflexivity | reflexivity].
Defined.

Lemma decode_error_reported_witness :
  value (AcquireLease (Demo.world (Demo.ok EmptyString)) Demo.m "foo"
           (Some "attrs"))
  = (None, Some Demo.EOF).
Proof.
  apply (ProtocolMore.decode_error_reported (Demo.world (Demo.ok EmptyString))
           Demo.m "foo" (Some "attrs") Inil
           (Demo.reply "200 OK" 200 EmptyString) Demo.EOF eq_refl).
  - eexists. split; [left; reflexivity | reflexivity].
  - reflexivity.
Defined.

Lemma success_returns_decoded_witness :
  value (GetNetworkConfig (Demo.world (Demo.ok "10.0.0.0/16")) Demo.m "foo")
  = (Some "10.0.0.0/16", None).
Proof.
  apply (ProtocolMore.success_returns_decoded
           (Demo.world (Demo.ok "10.0.0.0/16")) Demo.m "foo" None Inil
           (Demo.reply "200 OK" 200 "10.0.0.0/16") eq_refl).
  - eexists. split; [left; reflexivity | reflexivity].
  - reflexivity.
Defined.

Lemma no_request_on_construction_failure_witness :
  AcquireLease (Demo.unserializable (Demo.ok "10.5.1.0-24")) Demo.m "foo"
    (Some "attrs")
  = ((None, Some (Foreign "json" "unsupported value")), [])
  /\ WatchLeases (Demo.refusing (Demo.ok "cursor=xyz")) Demo.m "foo"
       (Istring "abc123")
     = ((zeroWatchResult (Demo.refusing (Demo.ok "cursor=xyz")),
         Some (Foreign "net/url" "invalid URL")), []).
Proof.
  split.
  - apply (ProtocolMore.no_request_on_construction_failure
             (Demo.unserializable (Demo.ok "10.5.1.0-24")) Demo.m "foo"
             (Some "attrs") 1 (Demo.heap1 "10.5.1.0-24") "abc123"
             (Foreign "json" "unsupported value")).
    reflexivity.
  - apply (ProtocolMore.no_request_on_construction_failure
             (Demo.refusing (Demo.ok "cursor=xyz")) Demo.m "foo"
             (Some "attrs") 1 (Demo.heap1 "10.5.1.0-24") "abc123"
             (Foreign "net/url" "invalid URL")).
    reflexivity.
Defined.


Lemma watch_cursor_feeds_next_watch_witness :
  exists c,
    Istring "xyz" = Istring c
    /\ exists rest,
         effects (WatchLeases (Demo.world (Demo.ok "cursor=xyz")) Demo.m
                    "bar" (Istring "xyz"))
         = Do {| Method := "GET";
                 URL := mkurl Demo.m "bar" ["leases"] ++ "?next=" ++ c;
                 Header := []; ReqBody := None |} :: rest.
Proof.
  exact (ProtocolMore.watch_cursor_feeds_next_watch
           (Demo.world (Demo.ok "cursor=xyz")) Demo.m "foo" "bar" Inil
           {| Data := "cursor=xyz"; Cursor := Istring "xyz" |} eq_refl).
Defined.

Lemma RenewLease_empty_key_witness :
  "http://10.0.0.1:8888/v1/foo/leases" = mkurl Demo.m "foo" ["leases"]
  /\ "http://10.0.0.1:8888/v1/foo/leases" = mkurl Demo.m "foo" ["leases/"].
Proof.
  apply (AddressingMore.RenewLease_empty_key (Demo.keyless (Demo.ok "renewed"))
           Demo.m "foo" 1 (Demo.heap1 "10.5.1.0-24") "10.5.1.0-24"
           {| Method := "PUT";
              URL := "http://10.0.0.1:8888/v1/foo/leases";
              Header := [("Content-Type", "application/json")];
              ReqBody := Some "10.5.1.0-24" |}
           eq_refl eq_refl).
  left. reflexivity.
Defined.

End ClientWitnesses.

(** ** No [.] and no [..] in a cleaned rooted path *)

Module PathSegments.

Import Path.

Lemma segments_not_nil (l : list ascii) : segments l <> [].
Proof.
  destruct l as [|c t]; [discriminate|].
  simpl. destruct (is_slash c); [discriminate|].
  destruct (segments t); discriminate.
Qed.

Lemma segments_slash_free (e : list ascii) :
  slash_free e = true -> segments e = [e].
Proof.
  induction e as [|c e IH]; intro H; [reflexivity|].
  simpl in H. apply andb_true_iff in H. destruct H as [Hc He].
  apply negb_true_iff in Hc. simpl. rewrite Hc, (IH He). reflexivity.
Qed.

Lemma is_slash_eq (c : ascii) : is_slash c = true -> c = "/"%char.
Proof. apply Ascii.eqb_eq. Qed.

Lemma segments_app_slash (a b : list ascii) :
  segments (a ++ "/"%char :: b)%list = (segments a ++ segments b)%list.
Proof.
  induction a as [|c a IH]; [reflexivity|].
  cbn [app segments]. rewrite IH.
  destruct (is_slash c); [reflexivity|].
  destruct (segments a) as [|seg segs] eqn:Hs;
    [exfalso; exact (segments_not_nil a Hs) | reflexivity].
Qed.

Lemma dot_free_root : dot_free ["/"%char].
Proof.
  intros seg [<-|[<-|[]]]; split; discriminate.
Qed.

(** What [backtrack] removes from a rooted buffer: the bytes of the last
    element and the separator under it, or all there is above the leading
    separator. *)
Lemma backtrack_structure (u : list ascii) :
  u <> [] ->
  no_adjacent_slashes (u ++ ["/"%char])%list = true ->
  exists seg u',
    slash_free seg = true
    /\ backtrack (u ++ ["/"%char])%list 1 = (u' ++ ["/"%char])%list
    /\ (u = (seg ++ "/"%char :: u')%list \/ u' = []).
Proof.
  induction u as [|c t IH]; intros Hne Hadj; [contradiction|].
  cbn [app backtrack].
  destruct t as [|c2 t'].
  - exists [], []. repeat split. right. reflexivity.
  - assert (Hlen : (1 <? List.length ((c2 :: t') ++ ["/"%char])%list)%nat = true).
    { apply Nat.ltb_lt. simpl. rewrite length_app. simpl. lia. }
    rewrite Hlen. cbn [andb].
    destruct (is_slash c) eqn:Hc; cbn [negb].
    + exists [], (c2 :: t'). repeat split.
      left. rewrite (is_slash_eq c Hc). reflexivity.
    + destruct (IH ltac:(discriminate) (PathShape.no_adjacent_tail _ _ Hadj))
        as [seg [u' [Hseg [Hb Hu]]]].
      exists (c :: seg), u'. repeat split.
      * simpl. rewrite Hc, Hseg. reflexivity.
      * exact Hb.
      * destruct Hu as [Hu|Hu]; [left; rewrite Hu; reflexivity | right; exact Hu].
Qed.

Lemma backtrack_dot_free (u : list ascii) :
  u <> [] ->
  no_adjacent_slashes (u ++ ["/"%char])%list = true ->
  dot_free (u ++ ["/"%char])%list ->
  dot_free (backtrack (u ++ ["/"%char])%list 1).
Proof.
  intros Hne Hadj Hfree.
  destruct (backtrack_structure u Hne Hadj) as [seg [u' [Hseg [-> Hu]]]].
  destruct Hu as [Hu| ->]; [|exact dot_free_root].
  intros s Hin. apply Hfree.
  rewrite Hu, <- app_assoc. cbn [app].
  rewrite segments_app_slash. apply in_or_app. right. exact Hin.
Qed.

(** [copy_elem] moves one element, up to the next separator or the end of
    the path, on top of the buffer. *)
Lemma copy_elem_span (path : bytes) :
  forall out : lazybuf,
    exists elem,
      path = (elem ++ fst (copy_elem path out))%list
      /\ snd (copy_elem path out) = (rev elem ++ out)%list
      /\ slash_free elem = true
      /\ ends_elem (fst (copy_elem path out)) = true.
Proof.
  induction path as [|c rest IH]; intro out.
  - exists []. repeat split.
  - cbn [copy_elem]. destruct (is_slash c) eqn:Hc.
    + exists []. repeat split. simpl. exact Hc.
    + destruct (IH (c :: out)) as [elem [Hp [Hs [Hf He]]]].
      exists (c :: elem). repeat split.
      * cbn [app]. rewrite <- Hp. reflexivity.
      * rewrite Hs. cbn [rev]. rewrite <- app_assoc. reflexivity.
      * simpl. rewrite Hc, Hf. reflexivity.
      * exact He.
Qed.

Lemma slash_free_rev (e : list ascii) :
  slash_free (rev e) = slash_free e.
Proof.
  unfold slash_free. induction e as [|c e IH]; [reflexivity|].
  cbn [rev]. rewrite forallb_app, IH. simpl.
  rewrite andb_true_r. apply andb_comm.
Qed.

(** The loop of [Clean] on a rooted path never leaves a [.] or a [..]
    in the buffer. *)
Lemma clean_loop_dot_free (fuel : nat) :
  forall (path : bytes) (out : lazybuf),
    rooted_buffer out ->
    dot_free out ->
    rooted_buffer (clean_loop fuel true path out 1)
    /\ dot_free (clean_loop fuel true path out 1).
Proof.
  induction fuel as [|fuel IH]; intros path out Hout Hfree;
    [split; assumption|].
  destruct path as [|c rest]; [split; assumption|].
  cbn [clean_loop].
  destruct (is_slash c) eqn:Hc; [apply IH; assumption|].
  destruct (is_dot c && ends_elem rest) eqn:Hdot; [apply IH; assumption|].
  destruct (is_dot c
            && match rest with
               | c1 :: rest2 => is_dot c1 && ends_elem rest2
               | [] => false
               end) eqn:Hdots.
  - destruct (1 <? List.length out)%nat eqn:Hlen; [|apply IH; assumption].
    destruct Hout as [u [-> [Hadj Htop]]].
    assert (Hu : u <> []).
    { intros ->. simpl in Hlen. discriminate Hlen. }
    apply IH.
    + destruct (PathShape.backtrack_rooted u Hu Hadj) as [u' [Hb [Hadj' Htop']]].
      exists u'. rewrite Hb. repeat split; assumption.
    + apply backtrack_dot_free; assumption.
  - cbn [andb negb orb]. rewrite orb_false_r.
    destruct Hout as [u [-> [Hadj Htop]]].
    set (out1 := if negb (List.length (u ++ ["/"%char])%list =? 1)%nat
                 then "/"%char :: (u ++ ["/"%char])%list
                 else (u ++ ["/"%char])%list).
    assert (H1 : exists u1 X,
              out1 = (u1 ++ ["/"%char])%list
              /\ no_adjacent_slashes out1 = true
              /\ out1 = "/"%char :: X
              /\ (forall seg, In seg (segments X) ->
                    seg <> ["."%char] /\ seg <> ["."%char; "."%char])).
    { subst out1. destruct u as [|c0 u0].
      - exists [], []. repeat split; try discriminate;
          destruct H as [<-|[]]; discriminate.
      - assert (Hl : (List.length ((c0 :: u0) ++ ["/"%char])%list =? 1)%nat
                     = false).
        { apply Nat.eqb_neq. simpl. rewrite length_app. simpl. lia. }
        rewrite Hl. cbn [negb].
        exists ("/"%char :: c0 :: u0), ((c0 :: u0) ++ ["/"%char])%list.
        split; [reflexivity|].
        split; [apply PathShape.no_adjacent_push_slash; assumption|].
        split; [reflexivity | exact Hfree]. }
    destruct H1 as [u1 [X [Hout1 [Hadj1 [HX HfreeX]]]]].
    destruct (PathShape.copy_elem_rooted (c :: rest) out1 Hadj1)
      as [e [He [Hadj2 [Htop2 Hne]]]].
    destruct (copy_elem_span (c :: rest) out1) as [elem [Hp [Hs [Hsf Hend]]]].
    destruct (copy_elem (c :: rest) out1) as [rest' out2].
    cbn [fst snd] in *. 
    apply IH.
    + subst out2. exists (e ++ u1)%list. rewrite Hout1 in *. rewrite app_assoc.
      repeat split; [rewrite <- app_assoc; exact Hadj2|].
      specialize (Hne c rest eq_refl Hc).
      destruct e as [|c0 e]; [contradiction | exact Htop2].
    + rewrite Hs, HX. intros seg Hin.
      rewrite segments_app_slash in Hin.
      rewrite segments_slash_free in Hin by (rewrite slash_free_rev; exact Hsf).
      destruct Hin as [<-|Hin]; [|apply HfreeX; exact Hin].
      split; intro Hrev.
      * assert (Helem : elem = ["."%char])
          by (rewrite <- (rev_involutive elem), Hrev; reflexivity).
        subst elem. cbn [app] in Hp. injection Hp as -> ->.
        rewrite Hend in Hdot. discriminate Hdot.
      * assert (Helem : elem = ["."%char; "."%char])
          by (rewrite <- (rev_involutive elem), Hrev; reflexivity).
        subst elem. cbn [app] in Hp. injection Hp as -> ->.
        rewrite Hend in Hdots. discriminate Hdots.
Qed.

Lemma split_first_slash (l : list ascii) :
  slash_free l = true
  \/ exists e b, l = (e ++ "/"%char :: b)%list /\ slash_free e = true.
Proof.
  induction l as [|c l IH]; [left; reflexivity|].
  destruct (is_slash c) eqn:Hc.
  - right. exists [], l. split; [|reflexivity].
    rewrite (is_slash_eq c Hc). reflexivity.
  - destruct IH as [IH|[e [b [-> He]]]].
    + left. unfold slash_free in *. simpl. rewrite Hc, IH. reflexivity.
    + right. exists (c :: e), b. split; [reflexivity|].
      unfold slash_free in *. simpl. rewrite Hc, He. reflexivity.
Qed.

(** Reading a path backwards reverses its segments and each of them. *)
Lemma segments_rev_bounded (n : nat) :
  forall l,
    List.length l <= n ->
    segments (rev l) = rev (map (@rev ascii) (segments l)).
Proof.
  induction n as [|n IH]; intros l Hlen.
  - destruct l; [reflexivity | simpl in Hlen; lia].
  - destruct (split_first_slash l) as [Hsf|[e [b [-> He]]]].
    + rewrite (segments_slash_free l Hsf).
      rewrite segments_slash_free by (rewrite slash_free_rev; exact Hsf).
      reflexivity.
    + rewrite (segments_app_slash e b), (segments_slash_free e He).
      rewrite rev_app_distr. cbn [rev]. rewrite <- app_assoc. cbn [app].
      rewrite (segments_app_slash (rev b) (rev e)).
      rewrite (segments_slash_free (rev e))
        by (rewrite slash_free_rev; exact He).
      rewrite (IH b) by (rewrite length_app in Hlen; simpl in Hlen; lia).
      cbn [app map rev]. reflexivity.
Qed.

Lemma dot_free_rev (l : list ascii) : dot_free l -> dot_free (rev l).
Proof.
  intros Hfree seg Hin.
  rewrite (segments_rev_bounded (List.length l) l (Nat.le_refl _)) in Hin.
  apply in_rev in Hin. apply in_map_iff in Hin.
  destruct Hin as [s [<- Hs]].
  destruct (Hfree s Hs) as [H1 H2].
  split; intro Hrev.
  - apply H1. rewrite <- (rev_involutive s), Hrev. reflexivity.
  - apply H2. rewrite <- (rev_involutive s), Hrev. reflexivity.
Qed.

(** [Clean] of a rooted path has no segment [.] and no segment [..]. *)
Lemma Clean_rooted_dot_free (c : ascii) (rest : string) :
  is_slash c = true ->
  dot_free (list_ascii_of_string (Clean (String c rest))).
Proof.
  intro Hc. unfold Clean. cbn [list_ascii_of_string]. rewrite Hc.
  set (out := clean_loop _ true _ _ 1).
  destruct (clean_loop_dot_free (List.length (c :: list_ascii_of_string rest))
              (list_ascii_of_string rest) ["/"%char]
              PathShape.rooted_buffer_root dot_free_root) as [Hout Hfree].
  fold out in Hout, Hfree.
  destruct Hout as [u [Hu _]].
  assert (Hlen : (List.length out =? 0)%nat = false).
  { apply Nat.eqb_neq. rewrite Hu, length_app. simpl. lia. }
  rewrite Hlen, list_ascii_of_string_of_list_ascii.
  apply dot_free_rev. exact Hfree.
Qed.

End PathSegments.

(** ** Addresses have no [.] and no [..] *)

Module AddressingSegments.

Import Client.

(** X12.  Whatever the network identifier and the segments, a lease key
    included, the path that [mkurl] appends to the base has no segment
    [.] and no segment [..]: they are resolved, never sent. *)
Theorem mkurl_no_dot_segments (m : RemoteManager) (network : string)
    (parts : list string) :
  exists p,
    mkurl m network parts = base m ++ p
    /\ ~ In (list_ascii_of_string ".")
           (Path.segments (list_ascii_of_string p))
    /\ ~ In (list_ascii_of_string "..")
           (Path.segments (list_ascii_of_string p)).
Proof.
  rewrite Addressing.mkurl_normalize.
  destruct (AddressingMore.normalize_rooted network) as [r ->].
  cbn [Path.Join String.eqb Ascii.eqb Bool.eqb].
  destruct (AddressingMore.strings_Join_rooted r parts) as [r' ->].
  eexists. split; [reflexivity|].
  pose proof (PathSegments.Clean_rooted_dot_free "/" r' eq_refl) as Hfree.
  split; intro Hin; destruct (Hfree _ Hin) as [H1 H2].
  - apply H1. reflexivity.
  - apply H2. reflexivity.
Qed.

Example mkurl_resolves_dots :
  map (fun network => mkurl Demo.m network ["leases"; "../config"])
    ["foo"; ".."; "a/./b"; "foo/../bar"]
  = ["http://10.0.0.1:8888/v1/foo/config";
     "http://10.0.0.1:8888/v1/config";
     "http://10.0.0.1:8888/v1/a/b/config";
     "http://10.0.0.1:8888/v1/bar/config"].
Proof. reflexivity. Qed.

End AddressingSegments.
